(** * The article of the editor: sections, components and the
      transactional operation log (src/article.js)

    [Article] and its methods are embedded as state-passing functions.

    - Section objects are JavaScript objects with an identity: they live in
      a store ([objects]) and the article holds references to them, so that
      [insertSection] and [removeSection] act on the very object they are
      given and [indexOf] compares references.
    - A method either returns or throws; an exception leaves behind the
      state reached when it was thrown ([Outcome]).
    - [historyAt] is a JavaScript number, modelled as an integer; array
      accesses and [splice] are written out for indices outside the array.
    - Section, the component classes, Selection and Utils are other files of
      the repository; what the article calls on them is modelled from the
      spec and marked so. *)

From Stdlib Require Import ZArith String Lia.
From stdpp Require Import base option list gmap strings.

Local Open Scope Z_scope.

(** ** Data model *)

(** The four component classes that [getComponentClassByName] knows. *)
Inductive ComponentClass :=
  | Paragraph
  | Figure
  | YouTubeComponent
  | GiphyComponent.

(** One inline formatting range handed to [applyFormats]. *)
Record Format := mkFormat {
  f_type : string;
  f_from : Z;
  f_to : Z }.

(** A component as the article sees it: its [name] (absent when the
    constructor was given none), its class, its text and formats, and the
    options it was built from. *)
Record Component := mkComponent {
  c_name : option string;
  c_class : ComponentClass;
  c_text : string;
  c_formats : list Format;
  c_attrs : gmap string string }.

(** A Section object: its name and its ordered components.  Components are
    owned by exactly one section, so they are stored by value inside it and a
    component's back-reference [component.section] is the section holding it. *)
Record SectionObj := mkSection {
  s_name : string;
  components : list Component }.

(** A reference to a component object: the Section object that owns it and
    its position among that section's components. *)
Record ComponentRef := mkRef {
  owner : nat;
  position : nat }.

(** The action specs that [exec] dispatches on, one constructor for each
    value of [operation[action].op] that [exec] handles, with the fields
    that its branch reads; fields that a branch tests for presence are
    optional.  [OtherOp op] stands for a spec whose op is none of the five
    strings. *)
Inductive ActionSpec :=
  | InsertChars (component : string) (value : string) (index : Z)
                (cursorOffset : option Z)
  | RemoveChars (component : string) (index count : Z)
                (cursorOffset : option Z)
  | UpdateComponent (component : string) (value : option string)
                    (formats : option (list Format))
                    (cursorOffset selectRange : option Z)
  | DeleteComponent (component : string)
  | InsertComponent (section : string) (component : string)
                    (componentClass : string) (index : Z)
                    (attrs : option (gmap string string))
  | OtherOp (op : string).

(** An operation carries its forward spec under key 'do' and its inverse
    under key 'undo'. *)
Record Operation := mkOperation {
  op_do : ActionSpec;
  op_undo : ActionSpec }.

(** The second argument of [exec]. *)
Inductive Action := Do | Undo.

Definition spec_of (operation : Operation) (action : Action) : ActionSpec :=
  match action with
  | Do => op_do operation
  | Undo => op_undo operation
  end.

(** Calls received by the Selection singleton, oldest first. *)
Inductive SelectionCall :=
  | SetCursor (component : option ComponentRef) (offset : Z)
  | Select (fromComponent : option ComponentRef) (fromOffset : Z)
           (toComponent : option ComponentRef) (toOffset : Z).

(** The program state: the store of Section objects ([objects], indexed by
    object identity) and the fields of the article.  [sections] holds
    references into the store; [historyAt] is a JavaScript number.  The DOM
    element of the article is rendering state and is left out. *)
Record Article := mkArticle {
  objects : gmap nat SectionObj;
  selection : list SelectionCall;
  sections : list nat;
  history : list (list Operation);
  historyAt : Z }.

Definition set_objects (o : gmap nat SectionObj) (a : Article) : Article :=
  mkArticle o (selection a) (sections a) (history a) (historyAt a).
Definition set_selection (l : list SelectionCall) (a : Article) : Article :=
  mkArticle (objects a) l (sections a) (history a) (historyAt a).
Definition set_sections (l : list nat) (a : Article) : Article :=
  mkArticle (objects a) (selection a) l (history a) (historyAt a).
Definition set_history (h : list (list Operation)) (a : Article) : Article :=
  mkArticle (objects a) (selection a) (sections a) h (historyAt a).
Definition set_historyAt (n : Z) (a : Article) : Article :=
  mkArticle (objects a) (selection a) (sections a) (history a) n.

(** ** Exceptions and the state monad of the methods *)

Inductive Error :=
  | TypeError        (* a property read or a call on undefined *)
  | NotFound
  | IndexOutOfRange.

(** A call either returns a value or throws; both leave a state behind. *)
Inductive Outcome (A : Type) :=
  | Return (a : A) (s : Article)
  | Throw (e : Error) (s : Article).
Arguments Return {A} a s.
Arguments Throw {A} e s.

Definition state_of {A} (o : Outcome A) : Article :=
  match o with
  | Return _ s => s
  | Throw _ s => s
  end.

Definition M (A : Type) : Type := Article -> Outcome A.

Definition ret {A} (a : A) : M A := fun s => Return a s.
Definition throw {A} (e : Error) : M A := fun s => Throw e s.
Definition bind {A B} (m : M A) (k : A -> M B) : M B :=
  fun s =>
    match m s with
    | Return a s' => k a s'
    | Throw e s' => Throw e s'
    end.
Definition gets {A} (f : Article -> A) : M A := fun s => Return (f s) s.
Definition modify (f : Article -> Article) : M unit := fun s => Return tt (f s).

Notation "'let*' x ':=' m 'in' k" := (bind m (fun x => k))
  (at level 10, x name, m at level 100, k at level 200).
Notation "m '>>' k" := (bind m (fun _ => k))
  (at level 100, k at level 200, right associativity).

(** ** JavaScript array primitives *)

(** [arr[i]] for a number [i]: undefined outside the array. *)
Definition at_index {A} (l : list A) (i : Z) : option A :=
  if 0 <=? i then l !! Z.to_nat i else None.

(** [arr.splice(start, deleteCount)]: a negative [start] counts from the end,
    both arguments are clamped to the array. *)
Definition splice {A} (l : list A) (start deleteCount : Z) : list A :=
  let len := Z.of_nat (length l) in
  let actualStart := if start <? 0 then Z.max (len + start) 0 else Z.min start len in
  let actualDeleteCount := Z.min (Z.max deleteCount 0) (len - actualStart) in
  take (Z.to_nat actualStart) l ++ drop (Z.to_nat (actualStart + actualDeleteCount)) l.

(** [arr.indexOf(x)] on an array of object references: the first index
    holding that reference, or -1. *)
Fixpoint indexOf_from (l : list nat) (x : nat) (i : Z) : Z :=
  match l with
  | [] => -1
  | y :: l' => if decide (y = x) then i else indexOf_from l' x (i + 1)
  end.
Definition indexOf (l : list nat) (x : nat) : Z := indexOf_from l x 0.

(** Truthiness of an optional number: undefined and 0 are falsy. *)
Definition truthy (o : option Z) : bool :=
  match o with
  | Some z => negb (z =? 0)
  | None => false
  end.

(** ** The collaborators of the article *)

(** Reading a property of the object behind a section reference. *)
Definition deref (section : nat) : M SectionObj :=
  fun s =>
    match objects s !! section with
    | Some o => Return o s
    | None => Throw TypeError s
    end.

(** Writing the object behind a section reference. *)
Definition store (section : nat) (o : SectionObj) : M unit :=
  modify (fun s => set_objects (<[section := o]> (objects s)) s).

(** Modelled from the spec: Section.insertComponentAt, which is not part of
    article.js.  It inserts the component at [index] and fails with
    IndexOutOfRange when [index] is not in [0, length]. *)
Definition Section_insertComponentAt (section : nat) (component : Component)
    (index : Z) : M unit :=
  let* sec := deref section in
  if (0 <=? index) && (index <=? Z.of_nat (length (components sec))) then
    store section
      (mkSection (s_name sec)
         (take (Z.to_nat index) (components sec) ++
          component :: drop (Z.to_nat index) (components sec)))
  else throw IndexOutOfRange.

(** Modelled from the spec: Section.removeComponent, which is not part of
    article.js.  It removes the component by identity and fails with NotFound
    when the section does not hold it. *)
Definition Section_removeComponent (component : ComponentRef) : M unit :=
  let* sec := deref (owner component) in
  match components sec !! position component with
  | Some _ =>
      store (owner component)
        (mkSection (s_name sec) (delete (position component) (components sec)))
  | None => throw NotFound
  end.

(** Modelled from the spec: the capability surface of a component
    (insertCharactersAt, removeCharactersAt, setText, applyFormats), which is
    not part of article.js.  The four methods act on the text and the
    formats of the component; an index beyond the text is clamped to it. *)
Definition clamp (t : string) (i : Z) : nat :=
  Z.to_nat (Z.max 0 (Z.min i (Z.of_nat (String.length t)))).

(** Replaces the text of a component and keeps the rest. *)
Definition set_text (t : string) (c : Component) : Component :=
  mkComponent (c_name c) (c_class c) t (c_formats c) (c_attrs c).

(** Modelled from the spec: insertCharactersAt inserts the character run
    [value] at [index]. *)
Definition insertCharactersAt (value : string) (index : Z) (c : Component)
    : Component :=
  let t := c_text c in
  let i := clamp t index in
  set_text (String.substring 0 i t ++ value ++
            String.substring i (String.length t - i) t)%string c.

(** Modelled from the spec: removeCharactersAt removes [count] characters at
    [index]. *)
Definition removeCharactersAt (index count : Z) (c : Component) : Component :=
  let t := c_text c in
  let i := clamp t index in
  let j := clamp t (Z.of_nat i + Z.max 0 count) in
  set_text (String.substring 0 i t ++
            String.substring j (String.length t - j) t)%string c.

(** Modelled from the spec: setText replaces the text. *)
Definition setText (value : string) (c : Component) : Component :=
  set_text value c.

(** Modelled from the spec: applyFormats applies the formatting ranges; the
    component keeps them after those it already has. *)
Definition applyFormats (formats : list Format) (c : Component) : Component :=
  mkComponent (c_name c) (c_class c) (c_text c) (c_formats c ++ formats)
    (c_attrs c).

(** Modelled from the spec: the component constructors, which are not part of
    article.js.  A component is built from its class and an options object;
    its name is the option 'name' and its text starts empty. *)
Definition new_Component (cls : ComponentClass) (options : gmap string string)
    : Component :=
  mkComponent (options !! "name"%string) cls ""%string [] options.

(** Modelled from the spec: Utils.extend, which is not part of article.js.
    The options of a new component are its name and the attrs of the action
    spec; the passed entries override the defaults, as the constructor of
    the article says of its own call of [extend]. *)
Definition extend (defaults passed : gmap string string) : gmap string string :=
  passed ∪ defaults.

(** A method call [component.method(...)] on the result of a lookup: a
    TypeError when the lookup gave undefined. *)
Definition call (component : option ComponentRef)
    (method : Component -> Component) : M unit :=
  match component with
  | None => throw TypeError
  | Some r =>
      let* sec := deref (owner r) in
      match components sec !! position r with
      | Some c =>
          store (owner r)
            (mkSection (s_name sec) (<[position r := method c]> (components sec)))
      | None => throw TypeError
      end
  end.

(** Modelled from the spec: Selection.setCursor, which is not part of
    article.js.  The Selection service only records the notifications it is
    sent. *)
Definition selection_setCursor (component : option ComponentRef) (offset : Z)
    : M unit :=
  modify (fun s => set_selection (selection s ++ [SetCursor component offset]) s).

(** Modelled from the spec: Selection.select, recorded like setCursor. *)
Definition selection_select (c1 : option ComponentRef) (o1 : Z)
    (c2 : option ComponentRef) (o2 : Z) : M unit :=
  modify (fun s => set_selection (selection s ++ [Select c1 o1 c2 o2]) s).

(** ** Structural methods of the article *)

(** [new Paragraph()]: the default component, built without options. *)
Definition new_Paragraph : Component := new_Component Paragraph ∅.

(** [Article.prototype.insertSection].  The guard
    [!section.components || !section.components.length] is the emptiness of
    the component list. *)
Definition insertSection (section : nat) : M nat :=
  let* sec := deref section in
  (if (length (components sec) =? 0)%nat
   then Section_insertComponentAt section new_Paragraph 0
   else ret tt) >>
  modify (fun s => set_sections (sections s ++ [section]) s) >>
  ret section.

(** [Article.prototype.removeSection] *)
Definition removeSection (section : nat) : M nat :=
  let* index := gets (fun s => indexOf (sections s) section) in
  modify (fun s => set_sections (splice (sections s) index 1) s) >>
  ret section.

(** The constructor: the sections of the parameters are inserted one by one
    into an empty article, then the history starts empty with cursor 0. *)
Fixpoint insertSections (params_sections : list nat) : M unit :=
  match params_sections with
  | [] => ret tt
  | section :: rest => insertSection section >> insertSections rest
  end.

Definition new_Article (objs : gmap nat SectionObj) (sel : list SelectionCall)
    (params_sections : list nat) : Outcome unit :=
  insertSections params_sections (mkArticle objs sel [] [] 0).

(** ** Lookup by name *)

(** [Article.prototype.getSectionByName]: the first section with that name,
    undefined ([None]) when the loop ends without a match. *)
Fixpoint getSectionByName_from (l : list nat) (name : string) : M (option nat) :=
  match l with
  | [] => ret None
  | x :: l' =>
      let* sec := deref x in
      if decide (s_name sec = name) then ret (Some x)
      else getSectionByName_from l' name
  end.

Definition getSectionByName (name : string) : M (option nat) :=
  let* l := gets sections in getSectionByName_from l name.

(** The inner loop of [getComponentByName] over one section, from index [j]. *)
Fixpoint findComponent (cs : list Component) (name : string) (j : nat)
    : option nat :=
  match cs with
  | [] => None
  | c :: cs' =>
      if decide (c_name c = Some name) then Some j
      else findComponent cs' name (S j)
  end.

(** [Article.prototype.getComponentByName]: the first component with that
    name in section order, undefined ([None]) when no loop finds one. *)
Fixpoint getComponentByName_from (l : list nat) (name : string)
    : M (option ComponentRef) :=
  match l with
  | [] => ret None
  | x :: l' =>
      let* sec := deref x in
      match findComponent (components sec) name 0 with
      | Some j => ret (Some (mkRef x j))
      | None => getComponentByName_from l' name
      end
  end.

Definition getComponentByName (name : string) : M (option ComponentRef) :=
  let* l := gets sections in getComponentByName_from l name.

(** [Article.prototype.getComponentClassByName]: a switch without default. *)
Definition getComponentClassByName (name : string) : option ComponentClass :=
  if decide (name = "Paragraph"%string) then Some Paragraph
  else if decide (name = "Figure"%string) then Some Figure
  else if decide (name = "YouTubeComponent"%string) then Some YouTubeComponent
  else if decide (name = "GiphyComponent"%string) then Some GiphyComponent
  else None.

(** [Article.prototype.getJSONModel]: the sections in order, each with its
    name and components (Section.getJSONModel is modelled from the spec). *)
Fixpoint getJSONModel_from (l : list nat) : M (list SectionObj) :=
  match l with
  | [] => ret []
  | x :: l' =>
      let* sec := deref x in
      let* rest := getJSONModel_from l' in
      ret (sec :: rest)
  end.

Definition getJSONModel : M (list SectionObj) :=
  let* l := gets sections in getJSONModel_from l.

(** ** The executor *)

(** [Article.prototype.exec] *)
Definition exec (operation : Operation) (action : Action) : M unit :=
  match spec_of operation action with
  | InsertChars componentName value index cursorOffset =>
      let* component := getComponentByName componentName in
      call component (insertCharactersAt value index) >>
      if truthy cursorOffset
      then selection_setCursor component (default 0 cursorOffset)
      else ret tt
  | RemoveChars componentName index count cursorOffset =>
      let* component := getComponentByName componentName in
      call component (removeCharactersAt index count) >>
      if truthy cursorOffset
      then selection_setCursor component (default 0 cursorOffset)
      else ret tt
  | UpdateComponent componentName value formats cursorOffset selectRange =>
      let* component := getComponentByName componentName in
      match value with
      | Some v => call component (setText v)
      | None => ret tt
      end >>
      match formats with
      | Some f => call component (applyFormats f)
      | None => ret tt
      end >>
      match cursorOffset with
      | Some offset =>
          if negb (truthy selectRange)
          then selection_setCursor component offset
          else selection_select component offset
                 component (offset + default 0 selectRange)
      | None => ret tt
      end
  | DeleteComponent componentName =>
      let* component := getComponentByName componentName in
      match component with
      | Some r => Section_removeComponent r
      | None => throw TypeError
      end
  | InsertComponent sectionName componentName constructorName index attrs =>
      let* section := getSectionByName sectionName in
      let options :=
        extend {[ "name"%string := componentName ]} (default ∅ attrs) in
      match getComponentClassByName constructorName with
      | None => throw TypeError
      | Some ComponentClass =>
          let component := new_Component ComponentClass options in
          match section with
          | Some l => Section_insertComponentAt l component index
          | None => throw TypeError
          end
      end
  | OtherOp _ => ret tt
  end.

(** ** The operation log *)

(** The loop of [do]: [for (i = 0; i < ops.length; i++) exec(ops[i], 'do')].
    [fuel] bounds the number of iterations. *)
Fixpoint do_loop (fuel : nat) (ops : list Operation) (i : Z) : M unit :=
  match fuel with
  | O => ret tt
  | S fuel' =>
      if i <? Z.of_nat (length ops) then
        match at_index ops i with
        | Some operation => exec operation Do
        | None => throw TypeError
        end >>
        do_loop fuel' ops (i + 1)
      else ret tt
  end.

(** [Article.prototype.do]: [ops = history[historyAt++]], then the loop. *)
Definition do : M unit :=
  let* ops := gets (fun s => at_index (history s) (historyAt s)) in
  modify (fun s => set_historyAt (historyAt s + 1) s) >>
  match ops with
  | Some ops => do_loop (length ops) ops 0
  | None => throw TypeError
  end.

(** [Article.prototype.transaction] *)
Definition transaction (ops : list Operation) : M unit :=
  (let* s := gets id in
   if historyAt s <? Z.of_nat (length (history s)) then
     modify (fun s =>
       set_history
         (splice (history s) (historyAt s)
            (Z.of_nat (length (history s)) - historyAt s)) s)
   else ret tt) >>
  modify (fun s => set_history (history s ++ [ops]) s) >>
  do.

(** [Article.prototype.redo] *)
Definition redo : M unit :=
  let* s := gets id in
  if historyAt s <? Z.of_nat (length (history s)) then do else ret tt.

(** The loop of [undo]:
    [for (i = ops.length - 1; i >= 0; i--) exec(ops[i], 'undo')]. *)
Fixpoint undo_loop (fuel : nat) (ops : list Operation) (i : Z) : M unit :=
  match fuel with
  | O => ret tt
  | S fuel' =>
      if 0 <=? i then
        match at_index ops i with
        | Some operation => exec operation Undo
        | None => throw TypeError
        end >>
        undo_loop fuel' ops (i - 1)
      else ret tt
  end.

(** [Article.prototype.undo]: [ops = history[--historyAt]], then the loop. *)
Definition undo : M unit :=
  let* s := gets id in
  if 0 <? historyAt s then
    modify (fun s => set_historyAt (historyAt s - 1) s) >>
    let* ops := gets (fun s => at_index (history s) (historyAt s)) in
    match ops with
    | Some ops => undo_loop (length ops) ops (Z.of_nat (length ops) - 1)
    | None => throw TypeError
    end
  else ret tt.

(** ** Specification-level vocabulary *)

(** The operations of a transaction executed one after the other, first
    element first.  This is the traversal that the loops of [do] and [undo]
    are compared with. *)
Fixpoint execAll (action : Action) (ops : list Operation) : M unit :=
  match ops with
  | [] => ret tt
  | operation :: rest => exec operation action >> execAll action rest
  end.

(** The cursor is a position of the history. *)
Definition log_ok (s : Article) : Prop :=
  0 <= historyAt s <= Z.of_nat (length (history s)).

(** [n] calls of the same method in a row; an exception ends the sequence. *)
Fixpoint times (n : nat) (m : M unit) : M unit :=
  match n with
  | O => ret tt
  | S n' => m >> times n' m
  end.

(** Several transactions submitted in a row. *)
Fixpoint transactions (ts : list (list Operation)) : M unit :=
  match ts with
  | [] => ret tt
  | t :: rest => transaction t >> transactions rest
  end.

(** A computation that leaves the log (history and cursor) alone, whether it
    returns or throws. *)
Definition keeps_log {A} (m : M A) : Prop :=
  forall s, history (state_of (m s)) = history s /\
            historyAt (state_of (m s)) = historyAt s.

(** The state in which [transaction] starts executing its operations. *)
Definition submitted (ops : list Operation) (s : Article) : Article :=
  mkArticle (objects s) (selection s) (sections s)
    (take (Z.to_nat (historyAt s)) (history s) ++ [ops]) (historyAt s + 1).

(** A computation that leaves the history array alone (it may move the
    cursor), whether it returns or throws. *)
Definition keeps_history {A} (m : M A) : Prop :=
  forall s, history (state_of (m s)) = history s.

(** Sequences of calls on the log, and the two-stack reading of it. *)

Inductive LogCall :=
  | CallTransaction (ops : list Operation)
  | CallUndo
  | CallRedo.

Definition run_call (c : LogCall) : M unit :=
  match c with
  | CallTransaction ops => transaction ops
  | CallUndo => undo
  | CallRedo => redo
  end.

(** The state after a sequence of calls.  A call that throws hands the state
    it leaves behind to the next call: the exception was the caller's to
    catch. *)
Definition run_calls (calls : list LogCall) (s : Article) : Article :=
  fold_left (fun s c => state_of (run_call c s)) calls s.

(** The textbook reading of the log, in the words of the spec: the
    transactions that are applied (most recent first) and those available
    for redo (next one first). *)
Record Stacks := mkStacks {
  applied : list (list Operation);
  redoable : list (list Operation) }.

Definition stacks_call (c : LogCall) (st : Stacks) : Stacks :=
  match c with
  | CallTransaction ops => mkStacks (ops :: applied st) []
  | CallUndo =>
      match applied st with
      | ops :: older => mkStacks older (ops :: redoable st)
      | [] => st
      end
  | CallRedo =>
      match redoable st with
      | ops :: later => mkStacks (ops :: applied st) later
      | [] => st
      end
  end.

Definition stacks_calls (calls : list LogCall) (st : Stacks) : Stacks :=
  fold_left (fun st c => stacks_call c st) calls st.

(** The cursor splits the history into the two stacks. *)
Definition splits (s : Article) (st : Stacks) : Prop :=
  log_ok s /\
  rev (take (Z.to_nat (historyAt s)) (history s)) = applied st /\
  drop (Z.to_nat (historyAt s)) (history s) = redoable st.

(** ** Sample documents *)

(** A document with one section "s1" holding one empty paragraph "c1". *)
Definition sample_paragraph : Component :=
  new_Component Paragraph {[ "name"%string := "c1"%string ]}.

Definition sample_section : SectionObj :=
  mkSection "s1" [sample_paragraph].

Definition sample_article : Article :=
  mkArticle {[ 1%nat := sample_section ]} [] [1%nat] [] 0.

(** Typing "Hi" into "c1", with its inverse. *)
Definition type_Hi : Operation :=
  mkOperation (InsertChars "c1" "Hi" 0 (Some 2)) (RemoveChars "c1" 0 2 None).

(** Deleting a component that does not exist. *)
Definition delete_ghost : Operation :=
  mkOperation (DeleteComponent "ghost")
              (InsertComponent "s1" "ghost" "Paragraph" 0 None).

(** The sample document after typing "Hi", and after undoing that. *)
Definition sample_typed : Article :=
  state_of (transaction [type_Hi] sample_article).

Definition sample_undone : Article := state_of (undo sample_typed).

(** Reading a component through a reference, and the text of the component
    that a name denotes. *)
Definition read_component (r : ComponentRef) (s : Article) : option Component :=
  match objects s !! owner r with
  | Some sec => components sec !! position r
  | None => None
  end.

Definition text_of (name : string) (s : Article) : option string :=
  match getComponentByName name s with
  | Return (Some r) _ => c_text <$> read_component r s
  | _ => None
  end.

(** A sequence of calls on the log of the sample document. *)
Definition sample_calls : list LogCall :=
  [CallTransaction [type_Hi]; CallTransaction [delete_ghost];
   CallUndo; CallUndo; CallRedo].

(** ** Vocabulary of the lookup claims *)

(** Every reference held in [sections] denotes a Section object. *)
Definition valid_refs (s : Article) : Prop :=
  Forall (fun l => is_Some (objects s !! l)) (sections s).

(** The components of the document, in lookup order. *)
Definition all_components (s : Article) : list Component :=
  flat_map
    (fun l => match objects s !! l with
              | Some sec => components sec
              | None => []
              end)
    (sections s).

Definition no_component_named (name : string) (s : Article) : Prop :=
  Forall (fun c => c_name c <> Some name) (all_components s).

Definition no_section_named (name : string) (s : Article) : Prop :=
  Forall (fun l => match objects s !! l with
                   | Some sec => s_name sec <> name
                   | None => True
                   end)
    (sections s).

(** The component name on whose lookup result [exec] calls a method or reads
    a property, if the action spec has one. *)
Definition dereferenced_component (a : ActionSpec) : option string :=
  match a with
  | InsertChars n _ _ _ => Some n
  | RemoveChars n _ _ _ => Some n
  | DeleteComponent n => Some n
  | UpdateComponent n (Some _) _ _ _ => Some n
  | UpdateComponent n None (Some _) _ _ => Some n
  | _ => None
  end.

(** A document with two sections, and a third Section object outside it. *)
Definition sample_two_sections : Article :=
  mkArticle
    {[ 1%nat := sample_section;
       2%nat := mkSection "s2" [new_Paragraph];
       3%nat := mkSection "s3" [] ]}
    [] [1%nat; 2%nat] [] 0.

(** ** Vocabulary of the undo/redo round trip *)

(** Two states hold the same document: the same section objects (with their
    components) and the same sequence of sections.  The selection and the
    log are not part of it. *)
Definition doc_eq (s1 s2 : Article) : Prop :=
  objects s1 = objects s2 /\ sections s1 = sections s2.

(** The same document and the same log. *)
Definition same_document (s1 s2 : Article) : Prop :=
  objects s1 = objects s2 /\ sections s1 = sections s2 /\
  history s1 = history s2 /\ historyAt s1 = historyAt s2.

(** Two outcomes that agree on what was returned or thrown and on the
    document they leave behind. *)
Definition agree {A} (o1 o2 : Outcome A) : Prop :=
  match o1, o2 with
  | Return a1 s1, Return a2 s2 => a1 = a2 /\ doc_eq s1 s2
  | Throw e1 s1, Throw e2 s2 => e1 = e2 /\ doc_eq s1 s2
  | _, _ => False
  end.

(** A computation that reads nothing but the document. *)
Definition doc_only {A} (m : M A) : Prop :=
  forall s1 s2, doc_eq s1 s2 -> agree (m s1) (m s2).

(** From every state holding the document of [s], executing [ops] returns
    and leaves the document of [s']. *)
Definition steps_to (action : Action) (ops : list Operation) (s s' : Article)
    : Prop :=
  forall x, doc_eq x s ->
    exists x', execAll action ops x = Return tt x' /\ doc_eq x' s'.

(** The inverse specs of each transaction really invert it: submitted to
    the state the previous ones left, each transaction returns, and undoing
    it right away returns and restores the document it was applied to. *)
Fixpoint revertible (ts : list (list Operation)) (s : Article) : Prop :=
  match ts with
  | [] => True
  | t :: rest =>
      exists s1 s0,
        transaction t s = Return tt s1 /\
        undo s1 = Return tt s0 /\
        doc_eq s0 s /\
        revertible rest s1
  end.

(** The documents passed through by a sequence of transactions, each of
    which can be stepped over in both directions. *)
Inductive chain : list (list Operation) -> Article -> Article -> Prop :=
  | chain_nil s s' : doc_eq s s' -> chain [] s s'
  | chain_cons t ts s s1 s' :
      steps_to Do t s s1 ->
      steps_to Undo (rev t) s1 s ->
      chain ts s1 s' ->
      chain (t :: ts) s s'.

(** An inverse that removes one character less than was typed. *)
Definition type_Hi_sloppy : Operation :=
  mkOperation (InsertChars "c1" "Hi" 0 None) (RemoveChars "c1" 0 1 None).

(** Inserting a paragraph "c2" at the head of "s1", and typing into it. *)
Definition insert_c2 : Operation :=
  mkOperation (InsertComponent "s1" "c2" "Paragraph" 0 None)
              (DeleteComponent "c2").

Definition type_into_c2 : Operation :=
  mkOperation (InsertChars "c2" "Hello" 0 (Some 5))
              (RemoveChars "c2" 0 5 None).

(** ** The remaining methods of the article *)

(** An argument that may be any object of the editor: a Section object or a
    component. *)
Inductive ObjectRef :=
  | SectionObject (section : nat)
  | ComponentObject (component : ComponentRef).

(** [this.sections.indexOf(x)] for any object [x]: a component is never
    identical to a section. *)
Definition indexOf_object (l : list nat) (x : ObjectRef) : Z :=
  match x with
  | SectionObject section => indexOf l section
  | ComponentObject _ => -1
  end.

(** [Article.prototype.removeComponent]: the index is looked up among the
    sections, then [this.components] is spliced.  No article has a property
    [components] (the constructor sets selection, dom, sections, history and
    historyAt), so the call of [splice] is a call on undefined. *)
Definition removeComponent (component : ObjectRef) : M ObjectRef :=
  let* index := gets (fun s => indexOf_object (sections s) component) in
  throw TypeError.

(** A document in which section 1 occurs twice. *)
Definition sample_aliased : Article :=
  mkArticle
    {[ 1%nat := sample_section; 2%nat := mkSection "s2" [new_Paragraph] ]}
    [] [1%nat; 2%nat; 1%nat] [] 0.

(** ** Vocabulary of the further properties *)

(** Every section of the article is a Section object with at least one
    component. *)
Definition sections_populated (s : Article) : Prop :=
  Forall (fun l => exists sec, objects s !! l = Some sec /\ components sec <> [])
    (sections s).

(** A computation that leaves the layout of the document alone, whether it
    returns or throws: the sequence of sections of the article, and which
    Section objects exist under which name. *)
Definition keeps_layout {A} (m : M A) : Prop :=
  forall s,
    sections (state_of (m s)) = sections s /\
    forall l, s_name <$> (objects (state_of (m s)) !! l)
              = s_name <$> (objects s !! l).

(** What a call gave back: the value returned or the exception thrown. *)
Definition result_of {A} (o : Outcome A) : Error + A :=
  match o with
  | Return a _ => inr a
  | Throw e _ => inl e
  end.

(** A computation that only reads: it leaves the state as it found it. *)
Definition reads_only {A} (m : M A) : Prop :=
  forall s, state_of (m s) = s.

(** A computation that throws only before it has changed anything. *)
Definition throws_early {A} (m : M A) : Prop :=
  forall s e s', m s = Throw e s' -> s' = s.

(** The constructor names that the switch of [getComponentClassByName]
    lists. *)
Definition known_classes : list string :=
  ["Paragraph"; "Figure"; "YouTubeComponent"; "GiphyComponent"]%string.

(** ** Samples with more than one operation *)

(** A transaction of two operations of which the second needs the first:
    the paragraph "c2" is inserted, then typed into. *)
Definition sample_two_ops : list Operation := [insert_c2; type_into_c2].

(** The sample document after that transaction, and after undoing it. *)
Definition sample_built : Article :=
  state_of (transaction sample_two_ops sample_article).

Definition sample_built_undone : Article := state_of (undo sample_built).

(** An operation that does nothing forward and whose inverse deletes a
    component that does not exist; a transaction holding it and [type_Hi],
    and the sample document after that transaction. *)
Definition undo_ghost : Operation :=
  mkOperation (OtherOp "noop") (DeleteComponent "ghost").

Definition sample_half : Article :=
  state_of (transaction [undo_ghost; type_Hi] sample_article).

(** * Properties *)

(** ** Frame properties of the monadic code *)

Create HintDb frame.

Lemma keeps_log_ret {A} (a : A) : keeps_log (ret a).
Proof. intros s; split; reflexivity. Qed.

Lemma keeps_log_throw {A} (e : Error) : keeps_log (@throw A e).
Proof. intros s; split; reflexivity. Qed.

Lemma keeps_log_bind {A B} (m : M A) (k : A -> M B) :
  keeps_log m -> (forall a, keeps_log (k a)) -> keeps_log (bind m k).
Proof.
  intros Hm Hk s. unfold bind.
  destruct (Hm s) as [H1 H2].
  destruct (m s) as [a s'|e s']; simpl in *.
  - destruct (Hk a s') as [H3 H4]. split; congruence.
  - split; assumption.
Qed.

Lemma keeps_log_gets {A} (f : Article -> A) : keeps_log (gets f).
Proof. intros s; split; reflexivity. Qed.

Lemma keeps_log_modify (f : Article -> Article) :
  (forall s, history (f s) = history s /\ historyAt (f s) = historyAt s) ->
  keeps_log (modify f).
Proof. intros H s. apply H. Qed.

Lemma keeps_log_deref l : keeps_log (deref l).
Proof. intros s. unfold deref. destruct (objects s !! l); split; reflexivity. Qed.

Lemma keeps_log_store l o : keeps_log (store l o).
Proof. apply keeps_log_modify. intros s; split; reflexivity. Qed.

Lemma keeps_log_setCursor c o : keeps_log (selection_setCursor c o).
Proof. apply keeps_log_modify. intros s; split; reflexivity. Qed.

Lemma keeps_log_select c1 o1 c2 o2 : keeps_log (selection_select c1 o1 c2 o2).
Proof. apply keeps_log_modify. intros s; split; reflexivity. Qed.

#[export] Hint Resolve keeps_log_ret keeps_log_throw keeps_log_gets
  keeps_log_deref keeps_log_store keeps_log_setCursor keeps_log_select : frame.

(** Breaks a monadic term into its primitive steps. *)
Ltac frame_steps :=
  repeat first
    [ apply keeps_log_bind; [ | intros ? ]
    | match goal with
      | |- keeps_log (match ?x with _ => _ end) => destruct x
      | |- keeps_log (if ?b then _ else _) => destruct b
      end
    | solve [ auto with frame ] ].

Lemma keeps_log_insertComponentAt l c i :
  keeps_log (Section_insertComponentAt l c i).
Proof. unfold Section_insertComponentAt. frame_steps. Qed.

Lemma keeps_log_removeComponent r : keeps_log (Section_removeComponent r).
Proof. unfold Section_removeComponent. frame_steps. Qed.

Lemma keeps_log_call c f : keeps_log (call c f).
Proof. unfold call. frame_steps. Qed.

Lemma keeps_log_getSectionByName_from l name :
  keeps_log (getSectionByName_from l name).
Proof. induction l as [|x l IH]; simpl; frame_steps. Qed.

Lemma keeps_log_getComponentByName_from l name :
  keeps_log (getComponentByName_from l name).
Proof. induction l as [|x l IH]; simpl; frame_steps. Qed.

#[export] Hint Resolve keeps_log_insertComponentAt keeps_log_removeComponent
  keeps_log_call keeps_log_getSectionByName_from
  keeps_log_getComponentByName_from : frame.

Lemma keeps_log_getSectionByName name : keeps_log (getSectionByName name).
Proof. unfold getSectionByName. frame_steps. Qed.

Lemma keeps_log_getComponentByName name : keeps_log (getComponentByName name).
Proof. unfold getComponentByName. frame_steps. Qed.

#[export] Hint Resolve keeps_log_getSectionByName
  keeps_log_getComponentByName : frame.

Lemma keeps_log_exec operation action : keeps_log (exec operation action).
Proof. unfold exec. frame_steps. Qed.

#[export] Hint Resolve keeps_log_exec : frame.

Lemma keeps_log_execAll action ops : keeps_log (execAll action ops).
Proof. induction ops as [|o ops IH]; simpl; frame_steps. Qed.

#[export] Hint Resolve keeps_log_execAll : frame.

(** ** The loops of [do] and [undo] as list traversals *)

Lemma bind_eq {A B} (m : M A) (k k' : A -> M B) s :
  (forall a s', k a s' = k' a s') -> bind m k s = bind m k' s.
Proof. intros H. unfold bind. destruct (m s); [apply H | reflexivity]. Qed.

Lemma at_index_nat {A} (l : list A) (i : nat) : at_index l (Z.of_nat i) = l !! i.
Proof.
  unfold at_index. destruct (Z.leb_spec 0 (Z.of_nat i)); [|lia].
  now rewrite Nat2Z.id.
Qed.

(** With at least as much fuel as operations left, the ascending loop from
    index [i] executes the operations from [i] on, in array order. *)
Lemma do_loop_drop fuel : forall ops (i : nat) s,
  (length ops - i <= fuel)%nat ->
  do_loop fuel ops (Z.of_nat i) s = execAll Do (drop i ops) s.
Proof.
  induction fuel as [|fuel IH]; intros ops i s Hf; simpl.
  - rewrite drop_ge by lia. reflexivity.
  - destruct (Z.ltb_spec (Z.of_nat i) (Z.of_nat (length ops))).
    + destruct (lookup_lt_is_Some_2 ops i) as [o Ho]; [lia|].
      rewrite at_index_nat, Ho, (drop_S _ _ _ Ho). simpl.
      apply bind_eq. intros _ s'.
      replace (Z.of_nat i + 1) with (Z.of_nat (S i)) by lia.
      apply IH. lia.
    + rewrite drop_ge by lia. reflexivity.
Qed.

(** With at least [k] units of fuel, the descending loop from index [k - 1]
    executes the first [k] operations, last one first. *)
Lemma undo_loop_take fuel : forall ops (k : nat) s,
  (k <= length ops)%nat -> (k <= fuel)%nat ->
  undo_loop fuel ops (Z.of_nat k - 1) s = execAll Undo (rev (take k ops)) s.
Proof.
  induction fuel as [|fuel IH]; intros ops k s Hk Hf; simpl.
  - replace k with 0%nat by lia. reflexivity.
  - destruct (Z.leb_spec 0 (Z.of_nat k - 1)).
    + destruct k as [|k]; [lia|].
      destruct (lookup_lt_is_Some_2 ops k) as [o Ho]; [lia|].
      replace (Z.of_nat (S k) - 1) with (Z.of_nat k) by lia.
      rewrite at_index_nat, Ho, (take_S_r _ _ _ Ho), rev_unit. simpl.
      apply bind_eq. intros _ s'. apply IH; lia.
    + replace k with 0%nat by lia. reflexivity.
Qed.

Lemma do_loop_execAll ops s : do_loop (length ops) ops 0 s = execAll Do ops s.
Proof. apply (do_loop_drop (length ops) ops 0 s). lia. Qed.

Lemma undo_loop_execAll ops s :
  undo_loop (length ops) ops (Z.of_nat (length ops) - 1) s
  = execAll Undo (rev ops) s.
Proof.
  rewrite (undo_loop_take (length ops) ops (length ops) s) by lia.
  now rewrite firstn_all.
Qed.

(** ** The four entry points of the log, in closed form *)

Lemma splice_tail {A} (l : list A) (a : Z) :
  0 <= a <= Z.of_nat (length l) ->
  splice l a (Z.of_nat (length l) - a) = take (Z.to_nat a) l.
Proof.
  intros H. unfold splice.
  destruct (Z.ltb_spec a 0); [lia|].
  rewrite (Z.min_l a) by lia.
  rewrite (Z.max_l (Z.of_nat (length l) - a)) by lia.
  rewrite Z.min_id.
  replace (a + (Z.of_nat (length l) - a)) with (Z.of_nat (length l)) by lia.
  rewrite Nat2Z.id, drop_all. apply app_nil_r.
Qed.

Lemma do_eq s ops :
  at_index (history s) (historyAt s) = Some ops ->
  do s = execAll Do ops (set_historyAt (historyAt s + 1) s).
Proof.
  intros H. unfold do, bind, gets, modify. rewrite H.
  apply do_loop_execAll.
Qed.

Lemma do_undefined s :
  at_index (history s) (historyAt s) = None ->
  do s = Throw TypeError (set_historyAt (historyAt s + 1) s).
Proof. intros H. unfold do, bind, gets, modify. now rewrite H. Qed.

Lemma redo_eq s ops :
  at_index (history s) (historyAt s) = Some ops ->
  redo s = execAll Do ops (set_historyAt (historyAt s + 1) s).
Proof.
  intros H. unfold redo, bind, gets, id.
  destruct (Z.ltb_spec (historyAt s) (Z.of_nat (length (history s)))).
  - now apply do_eq.
  - unfold at_index in H.
    destruct (Z.leb_spec 0 (historyAt s)); [|discriminate].
    apply lookup_lt_Some in H. lia.
Qed.

Lemma redo_at_end s :
  Z.of_nat (length (history s)) <= historyAt s -> redo s = Return tt s.
Proof.
  intros H. unfold redo, bind, gets, id.
  destruct (Z.ltb_spec (historyAt s) (Z.of_nat (length (history s))));
    [lia | reflexivity].
Qed.

Lemma undo_eq s ops :
  0 < historyAt s ->
  at_index (history s) (historyAt s - 1) = Some ops ->
  undo s = execAll Undo (rev ops) (set_historyAt (historyAt s - 1) s).
Proof.
  intros Hpos H. unfold undo, bind, gets, modify, id.
  destruct (Z.ltb_spec 0 (historyAt s)); [|lia].
  simpl. rewrite H. apply undo_loop_execAll.
Qed.

Lemma undo_at_origin s : historyAt s <= 0 -> undo s = Return tt s.
Proof.
  intros H. unfold undo, bind, gets, id.
  destruct (Z.ltb_spec 0 (historyAt s)); [lia | reflexivity].
Qed.

Lemma transaction_eq s ops :
  log_ok s -> transaction ops s = execAll Do ops (submitted ops s).
Proof.
  intros [H0 H1]. unfold transaction, bind, gets, modify, id.
  set (h := take (Z.to_nat (historyAt s)) (history s)).
  assert (Hlen : length h = Z.to_nat (historyAt s)).
  { unfold h. rewrite length_take. lia. }
  assert (Hat : at_index (h ++ [ops]) (historyAt s) = Some ops).
  { unfold at_index. destruct (Z.leb_spec 0 (historyAt s)); [|lia].
    rewrite lookup_app_r by lia. rewrite Hlen, Nat.sub_diag. reflexivity. }
  destruct (Z.ltb_spec (historyAt s) (Z.of_nat (length (history s)))).
  - simpl. rewrite splice_tail by lia. fold h.
    change (do (set_history (h ++ [ops]) s) = execAll Do ops (submitted ops s)).
    rewrite (do_eq _ ops) by exact Hat. reflexivity.
  - simpl.
    assert (Hh : h = history s).
    { unfold h. apply take_ge. lia. }
    rewrite <- Hh.
    change (do (set_history (h ++ [ops]) s) = execAll Do ops (submitted ops s)).
    rewrite (do_eq _ ops) by exact Hat. reflexivity.
Qed.

(** ** The history is only written by [transaction] *)

Lemma keeps_log_history {A} (m : M A) : keeps_log m -> keeps_history m.
Proof. intros H s. apply H. Qed.

Lemma keeps_history_bind {A B} (m : M A) (k : A -> M B) :
  keeps_history m -> (forall a, keeps_history (k a)) -> keeps_history (bind m k).
Proof.
  intros Hm Hk s. unfold bind. specialize (Hm s).
  destruct (m s) as [a s'|e s']; simpl in *.
  - rewrite (Hk a s'). exact Hm.
  - exact Hm.
Qed.

Lemma keeps_history_move (f : Z -> Z) :
  keeps_history (modify (fun s => set_historyAt (f (historyAt s)) s)).
Proof. intros s. reflexivity. Qed.

Lemma keeps_log_do_loop fuel : forall ops i, keeps_log (do_loop fuel ops i).
Proof. induction fuel as [|fuel IH]; intros ops i; simpl; frame_steps. Qed.

Lemma keeps_log_undo_loop fuel : forall ops i, keeps_log (undo_loop fuel ops i).
Proof. induction fuel as [|fuel IH]; intros ops i; simpl; frame_steps. Qed.

#[export] Hint Resolve keeps_log_do_loop keeps_log_undo_loop : frame.

Lemma keeps_history_do : keeps_history do.
Proof.
  unfold do.
  apply keeps_history_bind; [apply keeps_log_history; auto with frame|].
  intros ops.
  apply keeps_history_bind;
    [apply (keeps_history_move (fun n => n + 1))|].
  intros _. apply keeps_log_history. destruct ops; auto with frame.
Qed.

Lemma keeps_history_redo : keeps_history redo.
Proof.
  unfold redo.
  apply keeps_history_bind; [apply keeps_log_history; auto with frame|].
  intros s0. destruct (_ <? _).
  - apply keeps_history_do.
  - apply keeps_log_history; auto with frame.
Qed.

Lemma keeps_history_undo : keeps_history undo.
Proof.
  unfold undo.
  apply keeps_history_bind; [apply keeps_log_history; auto with frame|].
  intros s0. destruct (_ <? _).
  - apply keeps_history_bind;
      [apply (keeps_history_move (fun n => n - 1))|].
    intros _.
    apply keeps_history_bind; [apply keeps_log_history; auto with frame|].
    intros ops. apply keeps_log_history. destruct ops; auto with frame.
  - apply keeps_log_history; auto with frame.
Qed.

(** The log seen by a call that starts executing operations: whatever the
    operations do, the log stays what it was when they started. *)
Lemma execAll_log action ops s :
  history (state_of (execAll action ops s)) = history s /\
  historyAt (state_of (execAll action ops s)) = historyAt s.
Proof. apply keeps_log_execAll. Qed.

Lemma transaction_log ops s :
  log_ok s ->
  history (state_of (transaction ops s))
    = take (Z.to_nat (historyAt s)) (history s) ++ [ops] /\
  historyAt (state_of (transaction ops s)) = historyAt s + 1.
Proof.
  intros H. rewrite transaction_eq by exact H.
  destruct (execAll_log Do ops (submitted ops s)) as [H1 H2].
  rewrite H1, H2. split; reflexivity.
Qed.

Lemma undo_log s :
  log_ok s ->
  history (state_of (undo s)) = history s /\
  historyAt (state_of (undo s)) = Z.max 0 (historyAt s - 1).
Proof.
  intros [H0 H1]. split; [apply keeps_history_undo|].
  destruct (Z.eq_dec (historyAt s) 0) as [E|E].
  - rewrite undo_at_origin by lia. simpl. lia.
  - destruct (lookup_lt_is_Some_2 (history s) (Z.to_nat (historyAt s - 1)))
      as [ops Hops]; [lia|].
    rewrite (undo_eq s ops); [|lia|].
    + destruct (execAll_log Undo (rev ops)
                  (set_historyAt (historyAt s - 1) s)) as [_ H2].
      rewrite H2. simpl. lia.
    + unfold at_index. destruct (Z.leb_spec 0 (historyAt s - 1)); [|lia].
      exact Hops.
Qed.

Lemma redo_log s :
  log_ok s ->
  history (state_of (redo s)) = history s /\
  historyAt (state_of (redo s))
    = Z.min (Z.of_nat (length (history s))) (historyAt s + 1).
Proof.
  intros [H0 H1]. split; [apply keeps_history_redo|].
  destruct (Z.eq_dec (historyAt s) (Z.of_nat (length (history s)))) as [E|E].
  - rewrite redo_at_end by lia. simpl. lia.
  - destruct (lookup_lt_is_Some_2 (history s) (Z.to_nat (historyAt s)))
      as [ops Hops]; [lia|].
    rewrite (redo_eq s ops).
    + destruct (execAll_log Do ops
                  (set_historyAt (historyAt s + 1) s)) as [_ H2].
      rewrite H2. simpl. lia.
    + unfold at_index. destruct (Z.leb_spec 0 (historyAt s)); [|lia].
      exact Hops.
Qed.

(** ** Sequences of calls and the two-stack reading of the log *)

Lemma keeps_log_set_sections (f : Article -> list nat) :
  keeps_log (modify (fun s => set_sections (f s) s)).
Proof. apply keeps_log_modify. intros s; split; reflexivity. Qed.

#[export] Hint Resolve keeps_log_set_sections : frame.

Lemma keeps_log_insertSection l : keeps_log (insertSection l).
Proof. unfold insertSection. frame_steps. Qed.

#[export] Hint Resolve keeps_log_insertSection : frame.

Lemma keeps_log_insertSections l : keeps_log (insertSections l).
Proof. induction l as [|x l IH]; simpl; frame_steps. Qed.

Lemma new_Article_log objs sel params s0 :
  new_Article objs sel params = Return tt s0 ->
  history s0 = [] /\ historyAt s0 = 0.
Proof.
  unfold new_Article. intros H.
  destruct (keeps_log_insertSections params (mkArticle objs sel [] [] 0))
    as [H1 H2].
  rewrite H in H1, H2. simpl in H1, H2. split; assumption.
Qed.

Lemma splits_transaction ops s st :
  splits s st ->
  splits (state_of (transaction ops s)) (stacks_call (CallTransaction ops) st).
Proof.
  intros (Hok & Happ & Hredo).
  destruct (transaction_log ops s Hok) as [Hh Hat].
  assert (Hlen : length (take (Z.to_nat (historyAt s)) (history s))
                 = Z.to_nat (historyAt s)).
  { rewrite length_take. destruct Hok. lia. }
  unfold splits, log_ok. rewrite Hh, Hat. simpl.
  rewrite length_app, Hlen. simpl. destruct Hok as [H0 H1].
  split; [lia|]. split.
  - rewrite take_ge by (rewrite length_app, Hlen; simpl; lia).
    rewrite rev_unit. now rewrite Happ.
  - apply drop_ge. rewrite length_app, Hlen. simpl. lia.
Qed.

Lemma splits_undo s st :
  splits s st -> splits (state_of (undo s)) (stacks_call CallUndo st).
Proof.
  intros (Hok & Happ & Hredo).
  destruct (undo_log s Hok) as [Hh Hat]. destruct Hok as [H0 H1].
  unfold splits, log_ok. rewrite Hh, Hat.
  destruct (Z.eq_dec (historyAt s) 0) as [E|E].
  - rewrite E in *. simpl in *. rewrite <- Happ. simpl.
    repeat split; try lia; assumption.
  - destruct (lookup_lt_is_Some_2 (history s) (Z.to_nat (historyAt s - 1)))
      as [ops Hops]; [lia|].
    rewrite Z.max_r by lia.
    replace (Z.to_nat (historyAt s)) with (S (Z.to_nat (historyAt s - 1)))
      in Happ, Hredo by lia.
    rewrite (take_S_r _ _ _ Hops), rev_unit in Happ.
    simpl. rewrite <- Happ. simpl.
    split; [lia|]. split; [reflexivity|].
    rewrite (drop_S _ _ _ Hops). now rewrite Hredo.
Qed.

Lemma splits_redo s st :
  splits s st -> splits (state_of (redo s)) (stacks_call CallRedo st).
Proof.
  intros (Hok & Happ & Hredo).
  destruct (redo_log s Hok) as [Hh Hat]. destruct Hok as [H0 H1].
  unfold splits, log_ok. rewrite Hh, Hat.
  destruct (Z.eq_dec (historyAt s) (Z.of_nat (length (history s)))) as [E|E].
  - rewrite Z.min_l by lia.
    rewrite drop_ge in Hredo by lia. simpl. rewrite <- Hredo.
    split; [lia|]. rewrite <- E. split; [exact Happ|].
    rewrite drop_ge by lia. exact Hredo.
  - destruct (lookup_lt_is_Some_2 (history s) (Z.to_nat (historyAt s)))
      as [ops Hops]; [lia|].
    rewrite Z.min_r by lia.
    rewrite (drop_S _ _ _ Hops) in Hredo.
    simpl. rewrite <- Hredo. simpl.
    replace (Z.to_nat (historyAt s + 1)) with (S (Z.to_nat (historyAt s)))
      by lia.
    split; [lia|]. split; [|reflexivity].
    rewrite (take_S_r _ _ _ Hops), rev_unit. now rewrite Happ.
Qed.

Lemma splits_call c s st :
  splits s st -> splits (state_of (run_call c s)) (stacks_call c st).
Proof.
  destruct c; simpl.
  - apply splits_transaction.
  - apply splits_undo.
  - apply splits_redo.
Qed.

Lemma splits_calls calls : forall s st,
  splits s st -> splits (run_calls calls s) (stacks_calls calls st).
Proof.
  induction calls as [|c calls IH]; intros s st H; simpl.
  - exact H.
  - apply IH. now apply splits_call.
Qed.

Lemma run_calls_history calls : forall s,
  (forall ops, CallTransaction ops ∉ calls) ->
  history (run_calls calls s) = history s.
Proof.
  induction calls as [|c calls IH]; intros s Hno; simpl; [reflexivity|].
  rewrite IH by (intros ops Hin; apply (Hno ops); now right).
  destruct c as [ops| |]; simpl.
  - exfalso. apply (Hno ops). now left.
  - apply keeps_history_undo.
  - apply keeps_history_redo.
Qed.

Lemma execAll_app action ops1 ops2 s :
  execAll action (ops1 ++ ops2) s
  = (execAll action ops1 >> execAll action ops2) s.
Proof.
  revert s. induction ops1 as [|o ops1 IH]; intros s; simpl.
  - reflexivity.
  - unfold bind. destruct (exec o action s) as [[] s'|e s']; [|reflexivity].
    rewrite IH. reflexivity.
Qed.

(** ** The claims about the log *)

(** C4: [redo] when the cursor is at the end of the history, and [undo] when
    the cursor is 0, return without changing anything: the cursor, the
    history, the sections, the section objects and their components (and the
    selection) are those of the state before the call. *)
Theorem redo_undo_noop_at_ends (s : Article) :
  (historyAt s = Z.of_nat (length (history s)) -> redo s = Return tt s) /\
  (historyAt s = 0 -> undo s = Return tt s).
Proof.
  split; intros H.
  - apply redo_at_end. lia.
  - apply undo_at_origin. lia.
Qed.

Lemma redo_undo_noop_at_ends_witness :
  historyAt sample_article = Z.of_nat (length (history sample_article)) /\
  historyAt sample_article = 0 /\
  redo sample_article = Return tt sample_article /\
  undo sample_article = Return tt sample_article.
Proof.
  destruct (redo_undo_noop_at_ends sample_article) as [Hr Hu].
  split; [reflexivity|]. split; [reflexivity|].
  split; [apply Hr; reflexivity | apply Hu; reflexivity].
Defined.

(** C5: forward application ([do], reached from [transaction] and [redo])
    takes [history[historyAt]], increments the cursor and executes the 'do'
    spec of each operation in array order, index 0 first; [undo] decrements
    the cursor and executes the 'undo' spec of each operation of
    [history[historyAt]] in reverse array order, last operation first. *)
Theorem forward_in_order_undo_in_reverse (s : Article) (ops : list Operation) :
  (at_index (history s) (historyAt s) = Some ops ->
     do s = execAll Do ops (set_historyAt (historyAt s + 1) s) /\
     redo s = execAll Do ops (set_historyAt (historyAt s + 1) s)) /\
  (log_ok s ->
     at_index (history (submitted ops s)) (historyAt s) = Some ops /\
     transaction ops s = execAll Do ops (submitted ops s)) /\
  (0 < historyAt s ->
   at_index (history s) (historyAt s - 1) = Some ops ->
     undo s = execAll Undo (rev ops) (set_historyAt (historyAt s - 1) s)).
Proof.
  split; [|split].
  - intros H. split; [now apply do_eq | now apply redo_eq].
  - intros H. split; [|now apply transaction_eq].
    destruct H as [H0 H1]. unfold submitted, at_index. simpl.
    destruct (Z.leb_spec 0 (historyAt s)); [|lia].
    rewrite lookup_app_r by (rewrite length_take; lia).
    rewrite length_take.
    replace (Z.to_nat (historyAt s)
             - Z.to_nat (historyAt s) `min` length (history s))%nat
      with 0%nat by lia.
    reflexivity.
  - intros Hpos H. now apply undo_eq.
Qed.

Lemma forward_in_order_undo_in_reverse_witness :
  (log_ok sample_article /\
   transaction sample_two_ops sample_article
   = execAll Do sample_two_ops (submitted sample_two_ops sample_article) /\
   transaction sample_two_ops sample_article = Return tt sample_built /\
   text_of "c2" sample_built = Some "Hello"%string /\
   execAll Do (rev sample_two_ops) (submitted sample_two_ops sample_article)
   = Throw TypeError (submitted sample_two_ops sample_article)) /\
  (0 < historyAt sample_built /\
   at_index (history sample_built) (historyAt sample_built - 1)
   = Some sample_two_ops /\
   undo sample_built
   = execAll Undo (rev sample_two_ops)
       (set_historyAt (historyAt sample_built - 1) sample_built) /\
   rev sample_two_ops = [type_into_c2; insert_c2] /\
   undo sample_built = Return tt sample_built_undone /\
   getComponentByName "c2" sample_built_undone
   = Return None sample_built_undone /\
   result_of (execAll Undo sample_two_ops
                (set_historyAt (historyAt sample_built - 1) sample_built))
   = inl TypeError) /\
  (at_index (history sample_built_undone) (historyAt sample_built_undone)
   = Some sample_two_ops /\
   do sample_built_undone
   = execAll Do sample_two_ops
       (set_historyAt (historyAt sample_built_undone + 1) sample_built_undone) /\
   redo sample_built_undone
   = execAll Do sample_two_ops
       (set_historyAt (historyAt sample_built_undone + 1) sample_built_undone) /\
   result_of (redo sample_built_undone) = inr tt /\
   text_of "c2" (state_of (redo sample_built_undone)) = Some "Hello"%string /\
   result_of (execAll Do (rev sample_two_ops)
                (set_historyAt (historyAt sample_built_undone + 1)
                   sample_built_undone))
   = inl TypeError).
Proof.
  assert (H1 : log_ok sample_article) by (unfold log_ok; simpl; lia).
  assert (H2 : 0 < historyAt sample_built) by (vm_compute; reflexivity).
  assert (H3 : at_index (history sample_built) (historyAt sample_built - 1)
               = Some sample_two_ops) by (vm_compute; reflexivity).
  assert (H4 : at_index (history sample_built_undone)
                 (historyAt sample_built_undone)
               = Some sample_two_ops) by (vm_compute; reflexivity).
  split; [|split].
  - split; [exact H1|]. split.
    + apply (proj1 (proj2 (forward_in_order_undo_in_reverse sample_article
                             sample_two_ops))).
      exact H1.
    + split; [vm_compute; reflexivity|].
      split; vm_compute; reflexivity.
  - split; [exact H2|]. split; [exact H3|]. split.
    + apply (proj2 (proj2 (forward_in_order_undo_in_reverse sample_built
                             sample_two_ops))); [exact H2 | exact H3].
    + split; [reflexivity|]. split; [vm_compute; reflexivity|].
      split; vm_compute; reflexivity.
  - split; [exact H4|].
    destruct (proj1 (forward_in_order_undo_in_reverse sample_built_undone
                       sample_two_ops) H4) as [Hdo Hredo].
    split; [exact Hdo|]. split; [exact Hredo|].
    split; [vm_compute; reflexivity|].
    split; vm_compute; reflexivity.
Defined.

(** C10: [undo] and [redo] never modify the history: whether they return or
    throw, the history afterwards is the list it was before, with the same
    transactions in the same places; the same holds of [do] and of [exec].
    Only [transaction] writes the history: it leaves the transactions below
    the cursor followed by the new one. *)
Theorem undo_redo_keep_history (s : Article) :
  history (state_of (undo s)) = history s /\
  history (state_of (redo s)) = history s /\
  history (state_of (do s)) = history s /\
  (forall operation action,
     history (state_of (exec operation action s)) = history s) /\
  (forall ops, log_ok s ->
     history (state_of (transaction ops s))
     = take (Z.to_nat (historyAt s)) (history s) ++ [ops]).
Proof.
  split; [apply keeps_history_undo|].
  split; [apply keeps_history_redo|].
  split; [apply keeps_history_do|].
  split.
  - intros operation action. apply keeps_log_exec.
  - intros ops H. now apply transaction_log.
Qed.

Lemma undo_redo_keep_history_witness :
  log_ok sample_undone /\
  history (state_of (redo sample_undone)) = [[type_Hi]] /\
  history (state_of (transaction [delete_ghost] sample_undone))
  = [[delete_ghost]].
Proof.
  destruct (undo_redo_keep_history sample_undone) as (_ & Hr & _ & _ & Ht).
  assert (H : log_ok sample_undone) by (vm_compute; split; discriminate).
  split; [exact H|]. split.
  - rewrite Hr. vm_compute. reflexivity.
  - rewrite (Ht [delete_ghost] H). vm_compute. reflexivity.
Defined.

(** C3: in a log whose cursor is a position below the end of the history
    (0 <= historyAt < history.length), [transaction] discards the transactions at indices at the cursor and above, appends
    the new transaction and applies it; afterwards the cursor is at the end
    of the history, so [redo] is a no-op, and no later [undo] or [redo]
    brings a discarded transaction back into the history. *)
Theorem transaction_discards_redo_tail (s : Article) (ops : list Operation) :
  0 <= historyAt s < Z.of_nat (length (history s)) ->
  transaction ops s = execAll Do ops (submitted ops s) /\
  history (state_of (transaction ops s))
  = take (Z.to_nat (historyAt s)) (history s) ++ [ops] /\
  historyAt (state_of (transaction ops s))
  = Z.of_nat (length (history (state_of (transaction ops s)))) /\
  redo (state_of (transaction ops s)) = Return tt (state_of (transaction ops s)) /\
  (forall calls, (forall ops', CallTransaction ops' ∉ calls) ->
     history (run_calls calls (state_of (transaction ops s)))
     = take (Z.to_nat (historyAt s)) (history s) ++ [ops]).
Proof.
  intros H.
  assert (Hok : log_ok s) by (unfold log_ok; lia).
  destruct (transaction_log ops s Hok) as [Hh Hat].
  assert (Hend : historyAt (state_of (transaction ops s))
                 = Z.of_nat (length (history (state_of (transaction ops s))))).
  { rewrite Hat, Hh, length_app, length_take. simpl. lia. }
  split; [now apply transaction_eq|].
  split; [exact Hh|]. split; [exact Hend|]. split.
  - apply redo_at_end. lia.
  - intros calls Hno. rewrite run_calls_history by exact Hno. exact Hh.
Qed.

Lemma transaction_discards_redo_tail_witness :
  0 <= historyAt sample_undone < Z.of_nat (length (history sample_undone)) /\
  history sample_undone = [[type_Hi]] /\
  history (state_of (transaction [delete_ghost] sample_undone))
  = [[delete_ghost]] /\
  redo (state_of (transaction [delete_ghost] sample_undone))
  = Return tt (state_of (transaction [delete_ghost] sample_undone)).
Proof.
  assert (H : 0 <= historyAt sample_undone
                < Z.of_nat (length (history sample_undone)))
    by (vm_compute; split; [discriminate | reflexivity]).
  destruct (transaction_discards_redo_tail sample_undone [delete_ghost] H)
    as (_ & Hh & _ & Hr & _).
  split; [exact H|]. split; [vm_compute; reflexivity|].
  split; [rewrite Hh; vm_compute; reflexivity | exact Hr].
Defined.

(** C9: in every state reached from a freshly constructed article by any
    sequence of [transaction], [undo] and [redo] calls (whether or not they
    throw), 0 <= historyAt <= history.length, and the cursor splits the
    history into the applied transactions (indices below the cursor) and the
    redoable ones (indices from the cursor on), as the two stacks of the
    textbook undo/redo model. *)
Theorem cursor_partitions_history objs sel params s0 (calls : list LogCall) :
  new_Article objs sel params = Return tt s0 ->
  0 <= historyAt (run_calls calls s0)
    <= Z.of_nat (length (history (run_calls calls s0))) /\
  rev (take (Z.to_nat (historyAt (run_calls calls s0)))
         (history (run_calls calls s0)))
  = applied (stacks_calls calls (mkStacks [] [])) /\
  drop (Z.to_nat (historyAt (run_calls calls s0)))
    (history (run_calls calls s0))
  = redoable (stacks_calls calls (mkStacks [] [])).
Proof.
  intros Hnew. destruct (new_Article_log _ _ _ _ Hnew) as [Hh Hat].
  apply (splits_calls calls s0 (mkStacks [] [])).
  unfold splits, log_ok. rewrite Hh, Hat. simpl.
  split; [lia|]. split; reflexivity.
Qed.

Lemma cursor_partitions_history_witness :
  new_Article {[ 1%nat := sample_section ]} [] [1%nat]
  = Return tt sample_article /\
  0 <= historyAt (run_calls sample_calls sample_article)
    <= Z.of_nat (length (history (run_calls sample_calls sample_article))) /\
  rev (take (Z.to_nat (historyAt (run_calls sample_calls sample_article)))
         (history (run_calls sample_calls sample_article)))
  = [[type_Hi]] /\
  drop (Z.to_nat (historyAt (run_calls sample_calls sample_article)))
    (history (run_calls sample_calls sample_article))
  = [[delete_ghost]].
Proof.
  assert (Hnew : new_Article {[ 1%nat := sample_section ]} [] [1%nat]
                 = Return tt sample_article) by (vm_compute; reflexivity).
  split; [exact Hnew|].
  exact (cursor_partitions_history _ _ _ _ sample_calls Hnew).
Defined.

(** C2 (as stated, refuted): a transaction whose second operation fails
    leaves the cursor incremented, the transaction in the history and the
    effect of its first operation in the document. *)
Lemma transaction_all_or_nothing_counterexample :
  historyAt sample_article = 0 /\
  history sample_article = [] /\
  text_of "c1" sample_article = Some ""%string /\
  exists s',
    transaction [type_Hi; delete_ghost] sample_article = Throw TypeError s' /\
    historyAt s' = 1 /\
    history s' = [[type_Hi; delete_ghost]] /\
    text_of "c1" s' = Some "Hi"%string.
Proof.
  split; [reflexivity|]. split; [reflexivity|].
  split; [vm_compute; reflexivity|].
  eexists. split; [vm_compute; reflexivity|].
  split; [reflexivity|]. split; [reflexivity|]. vm_compute. reflexivity.
Qed.

(** C2 (amended): transaction application is not all-or-nothing.  In a
    log whose cursor is a position of the history, [transaction] appends the transaction and increments the cursor before
    any operation is executed; when an operation throws, the exception
    propagates out of [transaction], the operations before it stay applied,
    those after it are not executed, and the log keeps the appended
    transaction with the cursor incremented. *)
Theorem failed_transaction_is_partial (s : Article)
    (before : list Operation) (failing : Operation) (after : list Operation)
    (e : Error) (s1 s2 : Article) :
  log_ok s ->
  execAll Do before (submitted (before ++ failing :: after) s) = Return tt s1 ->
  exec failing Do s1 = Throw e s2 ->
  transaction (before ++ failing :: after) s = Throw e s2 /\
  historyAt s2 = historyAt s + 1 /\
  history s2
  = take (Z.to_nat (historyAt s)) (history s) ++ [before ++ failing :: after].
Proof.
  intros Hok Hbefore Hfail.
  assert (Hrun : transaction (before ++ failing :: after) s = Throw e s2).
  { rewrite transaction_eq by exact Hok.
    rewrite execAll_app. unfold bind. rewrite Hbefore. simpl.
    unfold bind. now rewrite Hfail. }
  split; [exact Hrun|].
  destruct (transaction_log (before ++ failing :: after) s Hok) as [Hh Hat].
  rewrite Hrun in Hh, Hat. simpl in Hh, Hat. split; assumption.
Qed.

Lemma failed_transaction_is_partial_witness :
  exists s1 s2,
    log_ok sample_article /\
    execAll Do [type_Hi] (submitted ([type_Hi] ++ delete_ghost :: []) sample_article)
    = Return tt s1 /\
    exec delete_ghost Do s1 = Throw TypeError s2 /\
    transaction ([type_Hi] ++ delete_ghost :: []) sample_article
    = Throw TypeError s2 /\
    historyAt s2 = historyAt sample_article + 1.
Proof.
  assert (Hok : log_ok sample_article) by (unfold log_ok; simpl; lia).
  eexists. eexists.
  split; [exact Hok|].
  assert (H1 : execAll Do [type_Hi]
                 (submitted ([type_Hi] ++ delete_ghost :: []) sample_article)
               = Return tt
                   (state_of (execAll Do [type_Hi]
                      (submitted ([type_Hi] ++ delete_ghost :: []) sample_article))))
    by (vm_compute; reflexivity).
  assert (H2 : exec delete_ghost Do
                 (state_of (execAll Do [type_Hi]
                    (submitted ([type_Hi] ++ delete_ghost :: []) sample_article)))
               = Throw TypeError
                   (state_of (execAll Do [type_Hi]
                      (submitted ([type_Hi] ++ delete_ghost :: []) sample_article))))
    by (vm_compute; reflexivity).
  split; [exact H1|]. split; [exact H2|].
  destruct (failed_transaction_is_partial sample_article [type_Hi] delete_ghost []
              TypeError _ _ Hok H1 H2) as (Ht & Hat & _).
  split; [exact Ht | exact Hat].
Defined.

(** ** Structural operations *)

(** C6: [insertSection] on a Section object without components first
    inserts a default Paragraph at index 0, so that the section holds exactly
    that one component; in every case the section is appended to the
    sections of the article and returned. *)
Theorem insertSection_populates_empty_section (s : Article) (section : nat)
    (sec : SectionObj) :
  objects s !! section = Some sec ->
  c_class new_Paragraph = Paragraph /\
  (components sec = [] ->
     insertSection section s
     = Return section
         (mkArticle
            (<[section := mkSection (s_name sec) [new_Paragraph]]> (objects s))
            (selection s) (sections s ++ [section]) (history s) (historyAt s))) /\
  (components sec <> [] ->
     insertSection section s
     = Return section (set_sections (sections s ++ [section]) s)).
Proof.
  intros Hsec. split; [reflexivity|]. split; intros Hc.
  - unfold insertSection, bind, deref. rewrite Hsec, Hc. simpl.
    unfold Section_insertComponentAt, bind, deref. rewrite Hsec, Hc. reflexivity.
  - unfold insertSection, bind, deref. rewrite Hsec.
    destruct (components sec) as [|c cs]; [congruence|]. reflexivity.
Qed.

Lemma insertSection_populates_empty_section_witness :
  objects sample_two_sections !! 3%nat = Some (mkSection "s3" []) /\
  insertSection 3%nat sample_two_sections
  = Return 3%nat
      (mkArticle
         (<[3%nat := mkSection "s3" [new_Paragraph]]> (objects sample_two_sections))
         [] [1%nat; 2%nat; 3%nat] [] 0) /\
  objects sample_two_sections !! 1%nat = Some sample_section /\
  insertSection 1%nat sample_two_sections
  = Return 1%nat (set_sections [1%nat; 2%nat; 1%nat] sample_two_sections).
Proof.
  assert (H3 : objects sample_two_sections !! 3%nat = Some (mkSection "s3" []))
    by (vm_compute; reflexivity).
  assert (H1 : objects sample_two_sections !! 1%nat = Some sample_section)
    by (vm_compute; reflexivity).
  split; [exact H3|]. split.
  - apply (proj1 (proj2 (insertSection_populates_empty_section _ _ _ H3))).
    reflexivity.
  - split; [exact H1|].
    apply (proj2 (proj2 (insertSection_populates_empty_section _ _ _ H1))).
    discriminate.
Defined.

Lemma indexOf_from_first before : forall x after i,
  x ∉ before ->
  indexOf_from (before ++ x :: after) x i = i + Z.of_nat (length before).
Proof.
  induction before as [|y before IH]; intros x after i Hx; simpl.
  - destruct (decide (x = x)); [lia | congruence].
  - apply not_elem_of_cons in Hx as [Hne Hx].
    destruct (decide (y = x)); [congruence|].
    rewrite IH by exact Hx. lia.
Qed.

Lemma splice_one {A} (before : list A) x after :
  splice (before ++ x :: after) (Z.of_nat (length before)) 1 = before ++ after.
Proof.
  unfold splice. rewrite length_app. simpl.
  destruct (Z.ltb_spec (Z.of_nat (length before)) 0); [lia|].
  rewrite Z.min_l by lia.
  rewrite (Z.max_l 1 0) by lia.
  rewrite Z.min_l by lia.
  rewrite Nat2Z.id.
  replace (Z.to_nat (Z.of_nat (length before) + 1)) with (S (length before))
    by lia.
  rewrite take_app_length.
  change (before ++ x :: after) with (before ++ [x] ++ after).
  rewrite app_assoc.
  replace (S (length before)) with (length (before ++ [x]))
    by (rewrite length_app; simpl; lia).
  now rewrite drop_app_length.
Qed.

(** C8 (as stated, refuted): removing a Section object that is not among the
    sections of the article raises no error; the call returns normally. *)
Lemma removeSection_absent_counterexample :
  (3%nat ∉ sections sample_two_sections) /\
  is_Some (objects sample_two_sections !! 3%nat) /\
  removeSection 3%nat sample_two_sections
  = Return 3%nat (set_sections [1%nat] sample_two_sections).
Proof.
  split; [|split].
  - simpl. intros H. apply elem_of_cons in H as [H|H]; [discriminate|].
    apply elem_of_cons in H as [H|H]; [discriminate|].
    now apply not_elem_of_nil in H.
  - eexists. vm_compute. reflexivity.
  - reflexivity.
Qed.

(** C8 (amended): [removeSection] never fails with NotFound: it always
    returns the section it was given.  For a section that is among the
    sections of the article, it removes exactly the first occurrence of that
    section (compared by identity) and leaves every other section, and the
    rest of the state, unchanged. *)
Theorem removeSection_removes_that_section (s : Article) (section : nat) :
  (exists s', removeSection section s = Return section s') /\
  (section ∈ sections s ->
   exists before after,
     sections s = before ++ section :: after /\
     (section ∉ before) /\
     removeSection section s
     = Return section (set_sections (before ++ after) s)).
Proof.
  split; [eexists; reflexivity|].
  intros Hin.
  destruct (list_elem_of_split_l _ _ Hin) as (before & after & Hs & Hfirst).
  exists before, after. split; [exact Hs|]. split; [exact Hfirst|].
  unfold removeSection, bind, gets, modify, ret, indexOf.
  rewrite Hs, indexOf_from_first by exact Hfirst.
  rewrite Z.add_0_l, splice_one. reflexivity.
Qed.

Lemma removeSection_removes_that_section_witness :
  (2%nat ∈ sections sample_two_sections) /\
  exists before after,
    sections sample_two_sections = before ++ 2%nat :: after /\
    (2%nat ∉ before) /\
    removeSection 2%nat sample_two_sections
    = Return 2%nat (set_sections (before ++ after) sample_two_sections).
Proof.
  assert (Hin : 2%nat ∈ sections sample_two_sections)
    by (simpl; apply elem_of_cons; right; apply elem_of_cons; left; reflexivity).
  split; [exact Hin|].
  exact (proj2 (removeSection_removes_that_section sample_two_sections 2%nat) Hin).
Defined.

(** ** Lookup by name *)

Lemma findComponent_miss cs name : forall j,
  Forall (fun c => c_name c <> Some name) cs -> findComponent cs name j = None.
Proof.
  induction cs as [|c cs IH]; intros j H; simpl; [reflexivity|].
  apply Forall_cons in H as [Hc H].
  destruct (decide (c_name c = Some name)); [contradiction|].
  now apply IH.
Qed.

Lemma getComponentByName_from_miss l name s :
  Forall (fun x => is_Some (objects s !! x)) l ->
  Forall (fun c => c_name c <> Some name)
    (flat_map (fun x => match objects s !! x with
                        | Some sec => components sec
                        | None => []
                        end) l) ->
  getComponentByName_from l name s = Return None s.
Proof.
  induction l as [|x l IH]; intros Hv Hn; simpl; [reflexivity|].
  apply Forall_cons in Hv as [[sec Hsec] Hv].
  simpl in Hn. rewrite Hsec in Hn. apply Forall_app in Hn as [Hx Hn].
  unfold bind, deref. rewrite Hsec.
  rewrite findComponent_miss by exact Hx.
  now apply IH.
Qed.

Lemma getSectionByName_from_miss l name s :
  Forall (fun x => is_Some (objects s !! x)) l ->
  Forall (fun x => match objects s !! x with
                   | Some sec => s_name sec <> name
                   | None => True
                   end) l ->
  getSectionByName_from l name s = Return None s.
Proof.
  induction l as [|x l IH]; intros Hv Hn; simpl; [reflexivity|].
  apply Forall_cons in Hv as [[sec Hsec] Hv].
  apply Forall_cons in Hn as [Hx Hn]. rewrite Hsec in Hx.
  unfold bind, deref. rewrite Hsec.
  destruct (decide (s_name sec = name)); [contradiction|].
  now apply IH.
Qed.

Lemma getComponentByName_miss name s :
  valid_refs s -> no_component_named name s ->
  getComponentByName name s = Return None s.
Proof.
  intros Hv Hn. unfold getComponentByName, bind, gets.
  now apply getComponentByName_from_miss.
Qed.

Lemma getSectionByName_miss name s :
  valid_refs s -> no_section_named name s ->
  getSectionByName name s = Return None s.
Proof.
  intros Hv Hn. unfold getSectionByName, bind, gets.
  now apply getSectionByName_from_miss.
Qed.

(** C7 (as stated, refuted): the lookup of a name that no component has
    returns undefined instead of failing, and an updateComponent action on
    that name that carries neither value nor formats nor cursor offset is
    executed without any error and without any effect. *)
Lemma lookup_miss_counterexample :
  no_component_named "ghost" sample_article /\
  getComponentByName "ghost" sample_article = Return None sample_article /\
  exec (mkOperation (UpdateComponent "ghost" None None None None)
                    (OtherOp "noop")) Do sample_article
  = Return tt sample_article.
Proof.
  split; [|split].
  - repeat constructor. discriminate.
  - reflexivity.
  - reflexivity.
Qed.

(** C7 (amended): no lookup and no dispatch fails with NotFound.  In a state
    whose section references all denote Section objects, for a name that no
    component (no section) of the document has, [getComponentByName]
    ([getSectionByName]) returns undefined.  [exec] then throws a TypeError,
    leaving the state as it was, as soon as it calls a method on the missing
    component (insertChars, removeChars, deleteComponent, updateComponent
    with a value or with formats) or on the missing section
    (insertComponent); an updateComponent with neither value nor formats
    returns without error and leaves the document and the log unchanged. *)
Theorem missing_name_is_undefined (s : Article) (name : string) :
  valid_refs s ->
  (no_component_named name s ->
     getComponentByName name s = Return None s /\
     (forall operation action,
        dereferenced_component (spec_of operation action) = Some name ->
        exec operation action s = Throw TypeError s) /\
     (forall operation action offset range,
        spec_of operation action = UpdateComponent name None None offset range ->
        exists s',
          exec operation action s = Return tt s' /\
          objects s' = objects s /\ sections s' = sections s /\
          history s' = history s /\ historyAt s' = historyAt s)) /\
  (no_section_named name s ->
     getSectionByName name s = Return None s /\
     (forall operation action c cls i attrs,
        spec_of operation action = InsertComponent name c cls i attrs ->
        exec operation action s = Throw TypeError s)).
Proof.
  intros Hv. split.
  - intros Hn.
    pose proof (getComponentByName_miss name s Hv Hn) as Hget.
    split; [exact Hget|]. split.
    + intros operation action Hd. unfold exec.
      destruct (spec_of operation action)
        as [n v i co|n i c co|n [v|] [f|] co sr|n|sn n cls i attrs|op];
        simpl in Hd; try discriminate; injection Hd as ->;
        unfold bind; rewrite Hget; reflexivity.
    + intros operation action offset range Hspec. unfold exec.
      rewrite Hspec. unfold bind. rewrite Hget. simpl.
      destruct offset as [o|]; [|eexists; repeat split; reflexivity].
      destruct (negb (truthy range)); eexists; repeat split; reflexivity.
  - intros Hn.
    pose proof (getSectionByName_miss name s Hv Hn) as Hget.
    split; [exact Hget|].
    intros operation action c cls i attrs Hspec. unfold exec.
    rewrite Hspec. unfold bind. rewrite Hget.
    destruct (getComponentClassByName cls); reflexivity.
Qed.

Lemma missing_name_is_undefined_witness :
  valid_refs sample_article /\
  no_component_named "ghost" sample_article /\
  no_section_named "nowhere" sample_article /\
  getComponentByName "ghost" sample_article = Return None sample_article /\
  exec delete_ghost Do sample_article = Throw TypeError sample_article /\
  getSectionByName "nowhere" sample_article = Return None sample_article.
Proof.
  assert (Hv : valid_refs sample_article)
    by (repeat constructor; eexists; vm_compute; reflexivity).
  assert (Hc : no_component_named "ghost" sample_article)
    by (repeat constructor; discriminate).
  assert (Hs : no_section_named "nowhere" sample_article)
    by (constructor; [vm_compute; discriminate | constructor]).
  split; [exact Hv|]. split; [exact Hc|]. split; [exact Hs|].
  destruct (missing_name_is_undefined sample_article "ghost" Hv)
    as [Hcomp _].
  destruct (missing_name_is_undefined sample_article "nowhere" Hv)
    as [_ Hsec].
  destruct (Hcomp Hc) as (Hget & Hexec & _).
  split; [exact Hget|].
  split; [apply Hexec; reflexivity|].
  exact (proj1 (Hsec Hs)).
Defined.

(** ** Computations that read nothing but the document *)

Lemma doc_eq_refl s : doc_eq s s.
Proof. split; reflexivity. Qed.

Lemma doc_eq_sym s1 s2 : doc_eq s1 s2 -> doc_eq s2 s1.
Proof. intros [H1 H2]. split; congruence. Qed.

Lemma doc_eq_trans s1 s2 s3 : doc_eq s1 s2 -> doc_eq s2 s3 -> doc_eq s1 s3.
Proof. intros [H1 H2] [H3 H4]. split; congruence. Qed.

Lemma doc_only_ret {A} (a : A) : doc_only (ret a).
Proof. intros s1 s2 H. simpl. auto. Qed.

Lemma doc_only_throw {A} (e : Error) : doc_only (@throw A e).
Proof. intros s1 s2 H. simpl. auto. Qed.

Lemma doc_only_bind {A B} (m : M A) (k : A -> M B) :
  doc_only m -> (forall a, doc_only (k a)) -> doc_only (bind m k).
Proof.
  intros Hm Hk s1 s2 H. unfold bind. specialize (Hm s1 s2 H).
  destruct (m s1) as [a1 s1'|e1 s1'], (m s2) as [a2 s2'|e2 s2'];
    simpl in Hm; try contradiction.
  - destruct Hm as [-> Hm]. now apply Hk.
  - exact Hm.
Qed.

Lemma doc_only_gets_sections : doc_only (gets sections).
Proof. intros s1 s2 H. simpl. split; [apply H | exact H]. Qed.

Lemma doc_only_deref l : doc_only (deref l).
Proof.
  intros s1 s2 H. unfold deref. destruct H as [Ho Hs]. rewrite Ho.
  destruct (objects s2 !! l); simpl; repeat split; assumption.
Qed.

Lemma doc_only_store l o : doc_only (store l o).
Proof.
  intros s1 s2 [Ho Hs]. simpl. repeat split; simpl; congruence.
Qed.

Lemma doc_only_setCursor c o : doc_only (selection_setCursor c o).
Proof. intros s1 s2 [Ho Hs]. simpl. repeat split; assumption. Qed.

Lemma doc_only_select c1 o1 c2 o2 : doc_only (selection_select c1 o1 c2 o2).
Proof. intros s1 s2 [Ho Hs]. simpl. repeat split; assumption. Qed.

Create HintDb doc.

#[export] Hint Resolve doc_only_ret doc_only_throw doc_only_gets_sections
  doc_only_deref doc_only_store doc_only_setCursor doc_only_select : doc.

Ltac doc_steps :=
  repeat first
    [ apply doc_only_bind; [ | intros ? ]
    | match goal with
      | |- doc_only (match ?x with _ => _ end) => destruct x
      | |- doc_only (if ?b then _ else _) => destruct b
      end
    | solve [ auto with doc ] ].

Lemma doc_only_insertComponentAt l c i :
  doc_only (Section_insertComponentAt l c i).
Proof. unfold Section_insertComponentAt. doc_steps. Qed.

Lemma doc_only_removeComponent r : doc_only (Section_removeComponent r).
Proof. unfold Section_removeComponent. doc_steps. Qed.

Lemma doc_only_call c f : doc_only (call c f).
Proof. unfold call. doc_steps. Qed.

Lemma doc_only_getSectionByName_from l name :
  doc_only (getSectionByName_from l name).
Proof. induction l as [|x l IH]; simpl; doc_steps. Qed.

Lemma doc_only_getComponentByName_from l name :
  doc_only (getComponentByName_from l name).
Proof. induction l as [|x l IH]; simpl; doc_steps. Qed.

#[export] Hint Resolve doc_only_insertComponentAt doc_only_removeComponent
  doc_only_call doc_only_getSectionByName_from
  doc_only_getComponentByName_from : doc.

Lemma doc_only_getSectionByName name : doc_only (getSectionByName name).
Proof. unfold getSectionByName. doc_steps. Qed.

Lemma doc_only_getComponentByName name : doc_only (getComponentByName name).
Proof. unfold getComponentByName. doc_steps. Qed.

#[export] Hint Resolve doc_only_getSectionByName
  doc_only_getComponentByName : doc.

Lemma doc_only_exec operation action : doc_only (exec operation action).
Proof. unfold exec. doc_steps. Qed.

#[export] Hint Resolve doc_only_exec : doc.

Lemma doc_only_execAll action ops : doc_only (execAll action ops).
Proof. induction ops as [|o ops IH]; simpl; doc_steps. Qed.

Lemma doc_only_getJSONModel_from l : doc_only (getJSONModel_from l).
Proof. induction l as [|x l IH]; simpl; doc_steps. Qed.

#[export] Hint Resolve doc_only_execAll doc_only_getJSONModel_from : doc.

(** Documents that are equal have the same JSON model. *)
Lemma doc_only_getJSONModel : doc_only getJSONModel.
Proof. unfold getJSONModel. doc_steps. Qed.

(** ** The undo/redo round trip *)

Lemma bind_ret_unit (m : M unit) s : bind m (fun _ => ret tt) s = m s.
Proof. unfold bind. destruct (m s) as [[] s'|e s']; reflexivity. Qed.

Lemma bind_assoc {A B C} (m : M A) (k : A -> M B) (h : B -> M C) s :
  bind (bind m k) h s = bind m (fun a => bind (k a) h) s.
Proof. unfold bind. destruct (m s); reflexivity. Qed.

Lemma times_succ_r n m : forall s, times (S n) m s = (times n m >> m) s.
Proof.
  induction n as [|n IH]; intros s.
  - simpl. now rewrite bind_ret_unit.
  - change (times (S (S n)) m s) with (bind m (fun _ => times (S n) m) s).
    rewrite (bind_eq m _ (fun _ => times n m >> m)) by (intros; apply IH).
    simpl. now rewrite bind_assoc.
Qed.

Lemma steps_to_intro action ops x x' :
  execAll action ops x = Return tt x' -> steps_to action ops x x'.
Proof.
  intros H y Hy.
  pose proof (doc_only_execAll action ops y x Hy) as Hag.
  rewrite H in Hag.
  destruct (execAll action ops y) as [[] y'|e y']; simpl in Hag;
    [|contradiction].
  exists y'. split; [reflexivity | apply Hag].
Qed.

Lemma steps_to_doc_eq action ops s1 s1' s2 s2' :
  doc_eq s1 s2 -> doc_eq s1' s2' ->
  steps_to action ops s1 s1' -> steps_to action ops s2 s2'.
Proof.
  intros H H' Hst x Hx.
  destruct (Hst x (doc_eq_trans _ _ _ Hx (doc_eq_sym _ _ H)))
    as (x' & He & Hd).
  exists x'. split; [exact He | exact (doc_eq_trans _ _ _ Hd H')].
Qed.

Lemma chain_doc_eq ts s1 s2 s' : doc_eq s1 s2 -> chain ts s1 s' -> chain ts s2 s'.
Proof.
  intros H Hc. destruct Hc as [s s' Hd|t ts s sa s' Hf Hb Hc].
  - constructor. exact (doc_eq_trans _ _ _ (doc_eq_sym _ _ H) Hd).
  - apply chain_cons with sa.
    + exact (steps_to_doc_eq _ _ _ _ _ _ H (doc_eq_refl _) Hf).
    + exact (steps_to_doc_eq _ _ _ _ _ _ (doc_eq_refl _) H Hb).
    + exact Hc.
Qed.

(** Transactions that can be reverted one by one form a chain, and leave the
    log with the transactions appended below the cursor. *)
Lemma revertible_chain ts : forall s,
  log_ok s -> revertible ts s ->
  exists sn post,
    transactions ts s = Return tt sn /\
    chain ts s sn /\
    history sn = take (Z.to_nat (historyAt s)) (history s) ++ ts ++ post /\
    historyAt sn = historyAt s + Z.of_nat (length ts).
Proof.
  induction ts as [|t ts IH]; intros s Hok Hrev.
  - exists s, (drop (Z.to_nat (historyAt s)) (history s)). simpl.
    split; [reflexivity|]. split; [constructor; apply doc_eq_refl|].
    split; [now rewrite take_drop | lia].
  - destruct Hrev as (s1 & s0 & Ht & Hu & Hd & Hrest).
    destruct (transaction_log t s Hok) as [Hh Hat].
    rewrite Ht in Hh, Hat. simpl in Hh, Hat.
    destruct Hok as [H0 H1].
    assert (Hlen : length (take (Z.to_nat (historyAt s)) (history s))
                   = Z.to_nat (historyAt s))
      by (rewrite length_take; lia).
    assert (Hok1 : log_ok s1).
    { unfold log_ok. rewrite Hh, Hat, length_app, Hlen. simpl. lia. }
    destruct (IH s1 Hok1 Hrest) as (sn & post & Hts & Hc & Hhn & Hatn).
    exists sn, post. split; [|split; [|split]].
    + simpl. unfold bind. rewrite Ht. exact Hts.
    + apply chain_cons with s1; [| |exact Hc].
      * rewrite transaction_eq in Ht by (split; assumption).
        apply steps_to_intro in Ht.
        refine (steps_to_doc_eq _ _ _ _ _ _ _ (doc_eq_refl _) Ht).
        split; reflexivity.
      * rewrite (undo_eq s1 t) in Hu.
        -- apply steps_to_intro in Hu.
           refine (steps_to_doc_eq _ _ _ _ _ _ _ Hd Hu). split; reflexivity.
        -- lia.
        -- rewrite Hh, Hat.
           replace (historyAt s + 1 - 1) with (Z.of_nat (Z.to_nat (historyAt s)))
             by lia.
           rewrite at_index_nat. now apply list_lookup_middle.
    + rewrite Hhn, Hh, Hat.
      rewrite take_ge by (rewrite length_app, Hlen; simpl; lia).
      rewrite <- app_assoc. reflexivity.
    + rewrite Hatn, Hat. simpl length. lia.
Qed.

(** Undoing along a chain: the cursor walks down the transactions and the
    document walks back to the start of the chain. *)
Lemma undo_chain ts : forall s0 s pre post,
  chain ts s0 s ->
  history s = pre ++ ts ++ post ->
  historyAt s = Z.of_nat (length pre + length ts) ->
  exists su,
    times (length ts) undo s = Return tt su /\
    doc_eq su s0 /\
    history su = history s /\
    historyAt su = Z.of_nat (length pre).
Proof.
  induction ts as [|t ts IH]; intros s0 s pre post Hc Hh Hat.
  - inversion Hc; subst. exists s. simpl.
    split; [reflexivity|]. split; [now apply doc_eq_sym|].
    split; [reflexivity | rewrite Hat; simpl; lia].
  - inversion Hc as [|t' ts' sa s1 sb Hf Hb Hrest]; subst.
    destruct (IH s1 s (pre ++ [t]) post Hrest) as (su' & Hrun & Hd & Hhu & Hatu).
    { rewrite Hh, <- app_assoc. reflexivity. }
    { rewrite Hat, length_app. simpl. f_equal. lia. }
    assert (Hlook : at_index (history su') (historyAt su' - 1) = Some t).
    { rewrite Hhu, Hh, Hatu, length_app. simpl.
      replace (Z.of_nat (length pre + 1) - 1) with (Z.of_nat (length pre))
        by lia.
      rewrite at_index_nat. now apply list_lookup_middle. }
    destruct (Hb (set_historyAt (historyAt su' - 1) su'))
      as (x' & Hx & Hdx); [destruct Hd; split; assumption|].
    destruct (execAll_log Undo (rev t) (set_historyAt (historyAt su' - 1) su'))
      as [Hl1 Hl2].
    rewrite Hx in Hl1, Hl2. simpl in Hl1, Hl2.
    exists x'. split; [|split; [exact Hdx|split]].
    + change (length (t :: ts)) with (S (length ts)).
      rewrite times_succ_r. unfold bind. rewrite Hrun.
      rewrite (undo_eq su' t);
        [exact Hx | rewrite Hatu, length_app; simpl; lia | exact Hlook].
    + rewrite Hl1. exact Hhu.
    + rewrite Hl2, Hatu, length_app. simpl. lia.
Qed.

(** Redoing along a chain: the cursor walks up the transactions and the
    document walks forward to the end of the chain. *)
Lemma redo_chain ts : forall s s' pre post,
  chain ts s s' ->
  history s = pre ++ ts ++ post ->
  historyAt s = Z.of_nat (length pre) ->
  exists sr,
    times (length ts) redo s = Return tt sr /\
    doc_eq sr s' /\
    history sr = history s /\
    historyAt sr = Z.of_nat (length pre + length ts).
Proof.
  induction ts as [|t ts IH]; intros s s' pre post Hc Hh Hat.
  - inversion Hc; subst. exists s. simpl.
    split; [reflexivity|]. split; [assumption|].
    split; [reflexivity | rewrite Hat; simpl; lia].
  - inversion Hc as [|t' ts' sa s1 sb Hf Hb Hrest]; subst.
    assert (Hlook : at_index (history s) (historyAt s) = Some t).
    { rewrite Hh, Hat, at_index_nat. now apply list_lookup_middle. }
    destruct (Hf (set_historyAt (historyAt s + 1) s))
      as (x1 & Hx & Hdx); [split; reflexivity|].
    destruct (execAll_log Do t (set_historyAt (historyAt s + 1) s))
      as [Hl1 Hl2].
    rewrite Hx in Hl1, Hl2. simpl in Hl1, Hl2.
    destruct (IH x1 s' (pre ++ [t]) post) as (sr & Hrun & Hd & Hhr & Hatr).
    { exact (chain_doc_eq _ _ _ _ (doc_eq_sym _ _ Hdx) Hrest). }
    { rewrite Hl1, Hh, <- app_assoc. reflexivity. }
    { rewrite Hl2, Hat, length_app. simpl. lia. }
    exists sr. split; [|split; [exact Hd|split]].
    + simpl. unfold bind. rewrite (redo_eq s t Hlook), Hx. exact Hrun.
    + rewrite Hhr. exact Hl1.
    + rewrite Hatr, length_app. simpl. f_equal. lia.
Qed.

(** The round trip over any number of revertible transactions. *)
Lemma round_trip s ts :
  log_ok s -> revertible ts s ->
  exists sn su sr,
    transactions ts s = Return tt sn /\
    times (length ts) undo sn = Return tt su /\
    doc_eq su s /\ historyAt su = historyAt s /\
    times (length ts) redo su = Return tt sr /\
    same_document sr sn.
Proof.
  intros Hok Hrev.
  destruct (revertible_chain ts s Hok Hrev) as (sn & post & Hts & Hc & Hh & Hat).
  destruct Hok as [H0 H1].
  assert (Hlen : length (take (Z.to_nat (historyAt s)) (history s))
                 = Z.to_nat (historyAt s))
    by (rewrite length_take; lia).
  destruct (undo_chain ts s sn _ post Hc Hh) as (su & Hu & Hdu & Hhu & Hatu).
  { rewrite Hat, Hlen. lia. }
  destruct (redo_chain ts su sn (take (Z.to_nat (historyAt s)) (history s)) post)
    as (sr & Hr & Hdr & Hhr & Hatr).
  { exact (chain_doc_eq _ _ _ _ (doc_eq_sym _ _ Hdu) Hc). }
  { rewrite Hhu. exact Hh. }
  { exact Hatu. }
  exists sn, su, sr.
  split; [exact Hts|]. split; [exact Hu|]. split; [exact Hdu|].
  split; [rewrite Hatu, Hlen; lia|]. split; [exact Hr|].
  destruct Hdr as [Ho Hs].
  split; [exact Ho|]. split; [exact Hs|]. split.
  - rewrite Hhr. exact Hhu.
  - rewrite Hatr, Hat, Hlen. lia.
Qed.

(** C1 (as stated, refuted): a transaction whose 'undo' spec does not invert
    its 'do' spec is accepted and applied as any other; after [undo] and
    [redo] the text of "c1" is "Hii", not the "Hi" that applying the
    transaction gave. *)
Lemma undo_redo_counterexample :
  exists s1 s0 s2,
    transaction [type_Hi_sloppy] sample_article = Return tt s1 /\
    undo s1 = Return tt s0 /\
    redo s0 = Return tt s2 /\
    text_of "c1" s1 = Some "Hi"%string /\
    text_of "c1" s2 = Some "Hii"%string.
Proof.
  eexists. eexists. eexists.
  split; [vm_compute; reflexivity|].
  split; [vm_compute; reflexivity|].
  split; [vm_compute; reflexivity|].
  split; vm_compute; reflexivity.
Qed.

(** C1 (amended): the executor never checks or computes an inverse, so the
    round trip holds for transactions whose 'undo' specs really invert
    their 'do' specs.  Let the cursor of D be a position of its history.
    If a transaction T returns on D and undoing it
    returns and restores the sections and components of D, then [undo]
    followed by [redo] returns a state with the sections, components,
    history and cursor reached by applying T; and for transactions T1..Tn
    that each return and are each inverted by their 'undo' specs, undoing n
    times brings back the document and cursor of D and redoing n times then
    reproduces the sections, components, history and cursor reached after
    Tn. *)
Theorem undo_then_redo_restores (s : Article) :
  log_ok s ->
  (forall t s1 s0,
     transaction t s = Return tt s1 ->
     undo s1 = Return tt s0 ->
     doc_eq s0 s ->
     exists s2, redo s0 = Return tt s2 /\ same_document s2 s1) /\
  (forall ts, revertible ts s ->
     exists sn su sr,
       transactions ts s = Return tt sn /\
       times (length ts) undo sn = Return tt su /\
       doc_eq su s /\ historyAt su = historyAt s /\
       times (length ts) redo su = Return tt sr /\
       same_document sr sn).
Proof.
  intros Hok. split.
  - intros t s1 s0 Ht Hu Hd.
    assert (Hrev : revertible [t] s).
    { simpl. exists s1, s0. repeat split; try assumption; apply Hd. }
    destruct (round_trip s [t] Hok Hrev)
      as (sn & su & sr & Ht' & Hu' & _ & _ & Hr & Hsame).
    simpl in Ht', Hu', Hr. rewrite bind_ret_unit in Ht', Hu', Hr.
    assert (sn = s1) by congruence. subst sn.
    assert (su = s0) by congruence. subst su.
    exists sr. split; assumption.
  - intros ts Hrev. now apply round_trip.
Qed.

Lemma undo_then_redo_restores_witness :
  log_ok sample_article /\
  revertible [[insert_c2]; [type_into_c2]] sample_article /\
  exists sn su sr,
    transactions [[insert_c2]; [type_into_c2]] sample_article = Return tt sn /\
    times 2 undo sn = Return tt su /\
    doc_eq su sample_article /\ historyAt su = historyAt sample_article /\
    times 2 redo su = Return tt sr /\
    same_document sr sn.
Proof.
  assert (Hok : log_ok sample_article) by (unfold log_ok; simpl; lia).
  assert (Hrev : revertible [[insert_c2]; [type_into_c2]] sample_article).
  { simpl. eexists. eexists.
    split; [vm_compute; reflexivity|].
    split; [vm_compute; reflexivity|].
    split; [split; vm_compute; reflexivity|].
    eexists. eexists.
    split; [vm_compute; reflexivity|].
    split; [vm_compute; reflexivity|].
    split; [split; vm_compute; reflexivity|].
    exact I. }
  split; [exact Hok|]. split; [exact Hrev|].
  exact (proj2 (undo_then_redo_restores sample_article Hok) _ Hrev).
Defined.

(** ** The lookup finds the first match, and the scenarios of the spec *)

Lemma findComponent_first before : forall c after name j,
  Forall (fun c => c_name c <> Some name) before ->
  c_name c = Some name ->
  findComponent (before ++ c :: after) name j = Some (j + length before)%nat.
Proof.
  induction before as [|b before IH]; intros c after name j Hb Hc; simpl.
  - destruct (decide (c_name c = Some name)); [f_equal; lia | contradiction].
  - apply Forall_cons in Hb as [Hb1 Hb].
    destruct (decide (c_name b = Some name)); [contradiction|].
    rewrite IH by assumption. f_equal. lia.
Qed.

(** [getComponentByName] returns a reference to the first component with
    the name, in the order of the sections and of their components. *)
Lemma getComponentByName_first s name earlier l later sec before c after :
  sections s = earlier ++ l :: later ->
  Forall (fun x => is_Some (objects s !! x)) earlier ->
  Forall (fun c => c_name c <> Some name)
    (flat_map (fun x => match objects s !! x with
                        | Some sec => components sec
                        | None => []
                        end) earlier) ->
  objects s !! l = Some sec ->
  components sec = before ++ c :: after ->
  Forall (fun c => c_name c <> Some name) before ->
  c_name c = Some name ->
  getComponentByName name s = Return (Some (mkRef l (length before))) s /\
  read_component (mkRef l (length before)) s = Some c.
Proof.
  intros Hs Hv Hn Hsec Hc Hb Hname. split.
  - unfold getComponentByName, bind, gets. rewrite Hs. clear Hs.
    induction earlier as [|x earlier IH]; simpl.
    + unfold bind, deref. rewrite Hsec, Hc.
      now rewrite findComponent_first by assumption.
    + apply Forall_cons in Hv as [[secx Hx] Hv].
      simpl in Hn. rewrite Hx in Hn. apply Forall_app in Hn as [Hnx Hn].
      unfold bind at 1. unfold deref at 1. rewrite Hx.
      rewrite findComponent_miss by exact Hnx.
      now apply IH.
  - unfold read_component. simpl. rewrite Hsec, Hc.
    now apply list_lookup_middle.
Qed.

(** The first scenario of the spec: a component inserted by a transaction is
    found by name, is not found after [undo], and is found again after
    [redo]. *)
Example scenario_insert_undo_redo :
  getComponentByName "c2" sample_article = Return None sample_article /\
  (let s1 := state_of (transaction [insert_c2] sample_article) in
   getComponentByName "c2" s1 = Return (Some (mkRef 1 0)) s1 /\
   getComponentByName "c2" (state_of (undo s1)) = Return None (state_of (undo s1)) /\
   getComponentByName "c2" (state_of (redo (state_of (undo s1))))
   = Return (Some (mkRef 1 0)) (state_of (redo (state_of (undo s1))))).
Proof. repeat split; vm_compute; reflexivity. Qed.

(** The second scenario of the spec: typing "Hi" and removing it again in one
    transaction leaves the text empty, and so does undoing the transaction
    as a whole. *)
Example scenario_type_and_remove :
  let t := [mkOperation (InsertChars "c1" "Hi" 0 None) (RemoveChars "c1" 0 2 None);
            mkOperation (RemoveChars "c1" 0 2 None) (InsertChars "c1" "Hi" 0 None)] in
  let s1 := state_of (transaction t sample_article) in
  transaction t sample_article = Return tt s1 /\
  text_of "c1" s1 = Some ""%string /\
  undo s1 = Return tt (state_of (undo s1)) /\
  text_of "c1" (state_of (undo s1)) = Some ""%string /\
  historyAt (state_of (undo s1)) = 0.
Proof. repeat split; vm_compute; reflexivity. Qed.

(** * Further properties of the code *)

(** ** Sections: insertion, removal, construction *)

Lemma indexOf_from_absent l : forall x i, x ∉ l -> indexOf_from l x i = -1.
Proof.
  induction l as [|y l IH]; intros x i Hx; simpl; [reflexivity|].
  apply not_elem_of_cons in Hx as [Hne Hx].
  destruct (decide (y = x)); [congruence|]. now apply IH.
Qed.

Lemma splice_last {A} (l : list A) :
  splice l (-1) 1 = take (length l - 1) l.
Proof.
  unfold splice. destruct (Z.ltb_spec (-1) 0); [|lia].
  destruct l as [|x l]; [reflexivity|].
  remember (x :: l) as k. assert (Hk : (1 <= length k)%nat) by (subst; simpl; lia).
  rewrite (Z.max_l (Z.of_nat (length k) + -1) 0) by lia.
  rewrite (Z.max_l 1 0) by lia. rewrite Z.min_l by lia.
  replace (Z.to_nat (Z.of_nat (length k) + -1)) with (length k - 1)%nat by lia.
  replace (Z.to_nat (Z.of_nat (length k) + -1 + 1)) with (length k) by lia.
  rewrite drop_all. apply app_nil_r.
Qed.

(** X1: [removeSection] does not test the result of [indexOf].  For a
    section that is not among the sections of the article, the index is -1
    and [splice(-1, 1)] removes the last section of the article instead (an
    article without sections is left as it is); the call returns the section
    it was given, and nothing but [sections] changes. *)
Theorem removeSection_absent_removes_last (s : Article) (section : nat) :
  section ∉ sections s ->
  removeSection section s
  = Return section
      (set_sections (take (length (sections s) - 1) (sections s)) s).
Proof.
  intros Habs. unfold removeSection, bind, gets, modify, ret, indexOf.
  rewrite indexOf_from_absent by exact Habs. now rewrite splice_last.
Qed.

Lemma removeSection_absent_removes_last_witness :
  (3%nat ∉ sections sample_two_sections) /\
  removeSection 3%nat sample_two_sections
  = Return 3%nat (set_sections [1%nat] sample_two_sections).
Proof.
  assert (H : 3%nat ∉ sections sample_two_sections).
  { simpl. intros H. apply elem_of_cons in H as [H|H]; [discriminate|].
    apply elem_of_cons in H as [H|H]; [discriminate|].
    now apply not_elem_of_nil in H. }
  split; [exact H|].
  exact (removeSection_absent_removes_last sample_two_sections 3%nat H).
Defined.

(** What [insertSection] does to the state, for a reference that denotes a
    Section object. *)
Lemma insertSection_returns s section sec :
  objects s !! section = Some sec ->
  exists sec',
    insertSection section s
    = Return section
        (mkArticle (<[section := sec']> (objects s)) (selection s)
           (sections s ++ [section]) (history s) (historyAt s)) /\
    s_name sec' = s_name sec /\
    components sec' <> [] /\
    (components sec <> [] -> sec' = sec).
Proof.
  intros Hsec. destruct (components sec) as [|c cs] eqn:Hc.
  - exists (mkSection (s_name sec) [new_Paragraph]).
    split; [|split; [reflexivity|split; [discriminate|congruence]]].
    unfold insertSection, bind, deref. rewrite Hsec, Hc. simpl.
    unfold Section_insertComponentAt, bind, deref. rewrite Hsec, Hc. reflexivity.
  - exists sec. split; [|split; [reflexivity|split; [congruence|reflexivity]]].
    unfold insertSection, bind, deref. rewrite Hsec, Hc. simpl.
    unfold modify, ret, set_sections. simpl.
    now rewrite insert_id by exact Hsec.
Qed.

(** X2: inserting a Section object that is not yet in the article and
    removing it again gives back the sections the article had, with the log
    and the selection untouched.  The Section object itself is not restored:
    it keeps the default paragraph that [insertSection] gave it when it was
    empty. *)
Theorem insertSection_removeSection_round_trip (s : Article) (section : nat)
    (sec : SectionObj) :
  objects s !! section = Some sec ->
  section ∉ sections s ->
  exists s1 s2,
    insertSection section s = Return section s1 /\
    removeSection section s1 = Return section s2 /\
    sections s2 = sections s /\
    history s2 = history s /\ historyAt s2 = historyAt s /\
    selection s2 = selection s /\
    objects s2 = objects s1 /\
    (components sec = [] ->
     objects s2 !! section = Some (mkSection (s_name sec) [new_Paragraph])).
Proof.
  intros Hsec Habs.
  destruct (insertSection_returns s section sec Hsec) as (sec' & Hins & Hn & Hne & Hsame).
  eexists. eexists. split; [exact Hins|].
  assert (Hrm : forall s1, sections s1 = sections s ++ [section] ->
            removeSection section s1 = Return section (set_sections (sections s) s1)).
  { intros s1 Hs1. unfold removeSection, bind, gets, modify, ret, indexOf.
    rewrite Hs1, indexOf_from_first by exact Habs.
    rewrite Z.add_0_l, splice_one, app_nil_r. reflexivity. }
  split; [apply Hrm; reflexivity|].
  simpl. repeat split.
  intros Hc.
  assert (E : insertSection section s
              = Return section
                  (mkArticle
                     (<[section := mkSection (s_name sec) [new_Paragraph]]> (objects s))
                     (selection s) (sections s ++ [section]) (history s) (historyAt s))).
  { unfold insertSection, bind, deref. rewrite Hsec, Hc. simpl.
    unfold Section_insertComponentAt, bind, deref. rewrite Hsec, Hc. reflexivity. }
  rewrite E in Hins. injection Hins as Hins. rewrite <- Hins.
  apply lookup_insert_eq.
Qed.

Lemma insertSection_removeSection_round_trip_witness :
  objects sample_two_sections !! 3%nat = Some (mkSection "s3" []) /\
  (3%nat ∉ sections sample_two_sections) /\
  exists s1 s2,
    insertSection 3%nat sample_two_sections = Return 3%nat s1 /\
    removeSection 3%nat s1 = Return 3%nat s2 /\
    sections s2 = [1%nat; 2%nat] /\
    objects s2 !! 3%nat = Some (mkSection "s3" [new_Paragraph]).
Proof.
  assert (H3 : objects sample_two_sections !! 3%nat = Some (mkSection "s3" []))
    by (vm_compute; reflexivity).
  assert (H : 3%nat ∉ sections sample_two_sections).
  { simpl. intros H. apply elem_of_cons in H as [H|H]; [discriminate|].
    apply elem_of_cons in H as [H|H]; [discriminate|].
    now apply not_elem_of_nil in H. }
  split; [exact H3|]. split; [exact H|].
  destruct (insertSection_removeSection_round_trip _ _ _ H3 H)
    as (s1 & s2 & Hi & Hr & Hs & _ & _ & _ & _ & Ho).
  exists s1, s2. split; [exact Hi|]. split; [exact Hr|].
  split; [exact Hs | apply Ho; reflexivity].
Defined.

(** X3: [insertSection] does not look for the section among those already
    in the article.  Inserting a section that the article already holds
    appends a second reference to the same object, and one [removeSection]
    then removes the earlier occurrence only: the section is still in the
    article, now at the end. *)
Theorem insertSection_again_duplicates (s : Article) (section : nat)
    (sec : SectionObj) (before after : list nat) :
  objects s !! section = Some sec ->
  sections s = before ++ section :: after ->
  section ∉ before ->
  exists s1 s2,
    insertSection section s = Return section s1 /\
    sections s1 = before ++ section :: after ++ [section] /\
    removeSection section s1 = Return section s2 /\
    sections s2 = before ++ after ++ [section].
Proof.
  intros Hsec Hs Hfirst.
  destruct (insertSection_returns s section sec Hsec) as (sec' & Hins & _).
  eexists.
  exists (mkArticle (<[section := sec']> (objects s)) (selection s)
            (before ++ after ++ [section]) (history s) (historyAt s)).
  split; [exact Hins|]. simpl.
  split; [rewrite Hs, <- app_assoc; reflexivity|].
  split; [|reflexivity].
  unfold removeSection, bind, gets, modify, ret, indexOf. simpl.
  rewrite Hs, <- app_assoc. simpl.
  rewrite indexOf_from_first by exact Hfirst.
  rewrite Z.add_0_l, splice_one. reflexivity.
Qed.

Lemma insertSection_again_duplicates_witness :
  objects sample_two_sections !! 1%nat = Some sample_section /\
  sections sample_two_sections = [] ++ 1%nat :: [2%nat] /\
  exists s1 s2,
    insertSection 1%nat sample_two_sections = Return 1%nat s1 /\
    sections s1 = [1%nat; 2%nat; 1%nat] /\
    removeSection 1%nat s1 = Return 1%nat s2 /\
    sections s2 = [2%nat; 1%nat].
Proof.
  assert (H1 : objects sample_two_sections !! 1%nat = Some sample_section)
    by (vm_compute; reflexivity).
  split; [exact H1|]. split; [reflexivity|].
  exact (insertSection_again_duplicates sample_two_sections 1%nat sample_section
           [] [2%nat] H1 eq_refl (not_elem_of_nil _)).
Defined.

Lemma insertSections_returns params : forall s,
  Forall (fun l => is_Some (objects s !! l)) params ->
  sections_populated s ->
  exists s',
    insertSections params s = Return tt s' /\
    sections s' = sections s ++ params /\
    sections_populated s' /\
    history s' = history s /\ historyAt s' = historyAt s /\
    selection s' = selection s /\
    (forall l, s_name <$> (objects s' !! l) = s_name <$> (objects s !! l)).
Proof.
  induction params as [|x params IH]; intros s Hv Hpop; simpl.
  - exists s. rewrite app_nil_r. repeat split; assumption.
  - apply Forall_cons in Hv as [[sec Hsec] Hv].
    destruct (insertSection_returns s x sec Hsec) as (sec' & Hins & Hn & Hne & _).
    set (s1 := mkArticle (<[x := sec']> (objects s)) (selection s)
                 (sections s ++ [x]) (history s) (historyAt s)) in *.
    assert (Hnames : forall l, s_name <$> (objects s1 !! l)
                               = s_name <$> (objects s !! l)).
    { intros l. simpl. destruct (decide (x = l)) as [<-|Hxl].
      - rewrite lookup_insert_eq, Hsec. simpl. now rewrite Hn.
      - now rewrite lookup_insert_ne by exact Hxl. }
    assert (Hv1 : Forall (fun l => is_Some (objects s1 !! l)) params).
    { eapply Forall_impl; [exact Hv|]. intros l Hl. simpl in *.
      specialize (Hnames l). simpl in Hnames.
      destruct (<[x:=sec']> (objects s) !! l); [eauto|].
      destruct Hl as [o Ho]. rewrite Ho in Hnames. discriminate. }
    assert (Hpop1 : sections_populated s1).
    { unfold sections_populated. simpl. apply Forall_app. split.
      - eapply Forall_impl; [exact Hpop|]. intros l (o & Ho & Hc). simpl.
        destruct (decide (x = l)) as [<-|Hxl].
        + exists sec'. split; [apply lookup_insert_eq | exact Hne].
        + exists o. split; [now rewrite lookup_insert_ne | exact Hc].
      - constructor; [|constructor].
        exists sec'. split; [apply lookup_insert_eq | exact Hne]. }
    destruct (IH s1 Hv1 Hpop1) as (s' & Hrun & Hs & Hp & Hh & Hat & Hsel & Hnm).
    exists s'. unfold bind. rewrite Hins. split; [exact Hrun|].
    split; [rewrite Hs; simpl; now rewrite <- app_assoc|].
    split; [exact Hp|]. split; [exact Hh|]. split; [exact Hat|].
    split; [exact Hsel|].
    intros l. rewrite Hnm. apply Hnames.
Qed.

(** X4: the constructor, given Section objects, returns an article whose
    sections are those objects in the order given, whose history is empty
    and whose cursor is 0; it keeps the name of every Section object, and
    every section of the new article has at least one component ("Section
    should always have a component when inserted into article"), with
    Section.insertComponentAt as modelled from the spec. *)
Theorem new_Article_inserts_all (objs : gmap nat SectionObj)
    (sel : list SelectionCall) (params : list nat) :
  Forall (fun l => is_Some (objs !! l)) params ->
  exists s0,
    new_Article objs sel params = Return tt s0 /\
    sections s0 = params /\
    history s0 = [] /\ historyAt s0 = 0 /\ selection s0 = sel /\
    sections_populated s0 /\
    (forall l, s_name <$> (objects s0 !! l) = s_name <$> (objs !! l)).
Proof.
  intros Hv. unfold new_Article.
  destruct (insertSections_returns params (mkArticle objs sel [] [] 0))
    as (s' & Hrun & Hs & Hp & Hh & Hat & Hsel & Hnm).
  - exact Hv.
  - constructor.
  - exists s'. repeat split; assumption.
Qed.

Lemma new_Article_inserts_all_witness :
  Forall (fun l => is_Some (({[ 1%nat := mkSection "s1" [];
                                2%nat := sample_section ]}
                             : gmap nat SectionObj) !! l))
    [1%nat; 2%nat] /\
  exists s0,
    new_Article {[ 1%nat := mkSection "s1" []; 2%nat := sample_section ]}
      [] [1%nat; 2%nat] = Return tt s0 /\
    sections s0 = [1%nat; 2%nat] /\
    sections_populated s0.
Proof.
  assert (Hv : Forall (fun l => is_Some (({[ 1%nat := mkSection "s1" [];
                                             2%nat := sample_section ]}
                                          : gmap nat SectionObj) !! l))
                 [1%nat; 2%nat])
    by (repeat constructor; eexists; vm_compute; reflexivity).
  split; [exact Hv|].
  destruct (new_Article_inserts_all _ [] _ Hv)
    as (s0 & Hnew & Hs & _ & _ & _ & Hp & _).
  exists s0. split; [exact Hnew|]. split; [exact Hs | exact Hp].
Defined.

(** ** The layout of the document under the log *)

Lemma keeps_layout_ret {A} (a : A) : keeps_layout (ret a).
Proof. intros s; split; reflexivity. Qed.

Lemma keeps_layout_throw {A} (e : Error) : keeps_layout (@throw A e).
Proof. intros s; split; reflexivity. Qed.

Lemma keeps_layout_bind {A B} (m : M A) (k : A -> M B) :
  keeps_layout m -> (forall a, keeps_layout (k a)) -> keeps_layout (bind m k).
Proof.
  intros Hm Hk s. unfold bind. destruct (Hm s) as [H1 H2].
  destruct (m s) as [a s'|e s']; simpl in *.
  - destruct (Hk a s') as [H3 H4]. split; [congruence|].
    intros l. now rewrite H4, H2.
  - split; assumption.
Qed.

Lemma keeps_layout_gets {A} (f : Article -> A) : keeps_layout (gets f).
Proof. intros s; split; reflexivity. Qed.

Lemma keeps_layout_modify (f : Article -> Article) :
  (forall s, sections (f s) = sections s /\ objects (f s) = objects s) ->
  keeps_layout (modify f).
Proof. intros H s. destruct (H s) as [H1 H2]. simpl. now rewrite H1, H2. Qed.

Lemma keeps_layout_deref l : keeps_layout (deref l).
Proof. intros s. unfold deref. destruct (objects s !! l); split; reflexivity. Qed.

Lemma keeps_layout_setCursor c o : keeps_layout (selection_setCursor c o).
Proof. apply keeps_layout_modify. intros s; split; reflexivity. Qed.

Lemma keeps_layout_select c1 o1 c2 o2 :
  keeps_layout (selection_select c1 o1 c2 o2).
Proof. apply keeps_layout_modify. intros s; split; reflexivity. Qed.

(** Writing back a Section object under the name that was read. *)
Lemma keeps_layout_rewrite l (cs : list Component) s sec :
  objects s !! l = Some sec ->
  sections (state_of (store l (mkSection (s_name sec) cs) s)) = sections s /\
  forall l', s_name <$> (objects (state_of (store l (mkSection (s_name sec) cs) s)) !! l')
             = s_name <$> (objects s !! l').
Proof.
  intros Hsec. split; [reflexivity|]. intros l'. simpl.
  destruct (decide (l = l')) as [<-|Hne].
  - rewrite lookup_insert_eq, Hsec. reflexivity.
  - now rewrite lookup_insert_ne by exact Hne.
Qed.

Lemma keeps_layout_insertComponentAt l c i :
  keeps_layout (Section_insertComponentAt l c i).
Proof.
  intros s. unfold Section_insertComponentAt, bind, deref.
  destruct (objects s !! l) as [sec|] eqn:Hsec; [|split; reflexivity].
  destruct (_ && _); [|split; reflexivity].
  exact (keeps_layout_rewrite l _ s sec Hsec).
Qed.

Lemma keeps_layout_removeComponent r : keeps_layout (Section_removeComponent r).
Proof.
  intros s. unfold Section_removeComponent, bind, deref.
  destruct (objects s !! owner r) as [sec|] eqn:Hsec; [|split; reflexivity].
  destruct (components sec !! position r); [|split; reflexivity].
  exact (keeps_layout_rewrite (owner r) _ s sec Hsec).
Qed.

Lemma keeps_layout_call c f : keeps_layout (call c f).
Proof.
  intros s. unfold call. destruct c as [r|]; [|split; reflexivity].
  unfold bind, deref.
  destruct (objects s !! owner r) as [sec|] eqn:Hsec; [|split; reflexivity].
  destruct (components sec !! position r) as [c|] eqn:Hc; [|split; reflexivity].
  exact (keeps_layout_rewrite (owner r) _ s sec Hsec).
Qed.

Create HintDb layout.

#[export] Hint Resolve keeps_layout_ret keeps_layout_throw keeps_layout_gets
  keeps_layout_deref keeps_layout_setCursor keeps_layout_select
  keeps_layout_insertComponentAt keeps_layout_removeComponent
  keeps_layout_call : layout.

Ltac layout_steps :=
  repeat first
    [ solve [ auto with layout ]
    | solve [ apply keeps_layout_modify; intros ?; split; reflexivity ]
    | apply keeps_layout_bind; [ | intros ? ]
    | match goal with
      | |- keeps_layout (match ?x with _ => _ end) => destruct x
      | |- keeps_layout (if ?b then _ else _) => destruct b
      end ].

Lemma keeps_layout_getSectionByName_from l name :
  keeps_layout (getSectionByName_from l name).
Proof. induction l as [|x l IH]; simpl; layout_steps. Qed.

Lemma keeps_layout_getComponentByName_from l name :
  keeps_layout (getComponentByName_from l name).
Proof. induction l as [|x l IH]; simpl; layout_steps. Qed.

#[export] Hint Resolve keeps_layout_getSectionByName_from
  keeps_layout_getComponentByName_from : layout.

Lemma keeps_layout_exec operation action : keeps_layout (exec operation action).
Proof.
  unfold exec, getComponentByName, getSectionByName. layout_steps.
Qed.

#[export] Hint Resolve keeps_layout_exec : layout.

Lemma keeps_layout_do_loop fuel : forall ops i, keeps_layout (do_loop fuel ops i).
Proof. induction fuel as [|fuel IH]; intros ops i; simpl; layout_steps. Qed.

Lemma keeps_layout_undo_loop fuel : forall ops i,
  keeps_layout (undo_loop fuel ops i).
Proof. induction fuel as [|fuel IH]; intros ops i; simpl; layout_steps. Qed.

#[export] Hint Resolve keeps_layout_do_loop keeps_layout_undo_loop : layout.

Lemma keeps_layout_do : keeps_layout do.
Proof. unfold do. layout_steps. Qed.

#[export] Hint Resolve keeps_layout_do : layout.

Lemma keeps_layout_redo : keeps_layout redo.
Proof. unfold redo. layout_steps. Qed.

Lemma keeps_layout_undo : keeps_layout undo.
Proof. unfold undo. layout_steps. Qed.

Lemma keeps_layout_transaction ops : keeps_layout (transaction ops).
Proof. unfold transaction. layout_steps. Qed.

Lemma keeps_layout_run_call c : keeps_layout (run_call c).
Proof.
  destruct c; simpl;
    [apply keeps_layout_transaction | apply keeps_layout_undo
    | apply keeps_layout_redo].
Qed.

Lemma run_calls_layout calls : forall s,
  sections (run_calls calls s) = sections s /\
  forall l, s_name <$> (objects (run_calls calls s) !! l)
            = s_name <$> (objects s !! l).
Proof.
  induction calls as [|c calls IH]; intros s; simpl; [split; reflexivity|].
  destruct (IH (state_of (run_call c s))) as [H1 H2].
  destruct (keeps_layout_run_call c s) as [H3 H4].
  split; [congruence|]. intros l. now rewrite H2, H4.
Qed.

(** X5: the log never touches the layout of the document.  Whatever the
    operations are and whether the calls return or throw, after any
    sequence of [transaction], [undo] and [redo] calls the article has the
    same sequence of sections, and the same Section objects exist under the
    same names; the same holds of a single [exec] and of [do].  No
    transaction can add, remove, reorder or rename a section, and no [undo]
    can bring back a section taken out by [removeSection]. *)
Theorem log_keeps_sections (s : Article) :
  (forall calls,
     sections (run_calls calls s) = sections s /\
     forall l, s_name <$> (objects (run_calls calls s) !! l)
               = s_name <$> (objects s !! l)) /\
  (forall operation action,
     sections (state_of (exec operation action s)) = sections s /\
     forall l, s_name <$> (objects (state_of (exec operation action s)) !! l)
               = s_name <$> (objects s !! l)) /\
  (sections (state_of (do s)) = sections s /\
   forall l, s_name <$> (objects (state_of (do s)) !! l)
             = s_name <$> (objects s !! l)).
Proof.
  split; [|split].
  - intros calls. apply run_calls_layout.
  - intros operation action. apply keeps_layout_exec.
  - apply keeps_layout_do.
Qed.

Lemma getSectionByName_from_layout l name : forall s1 s2,
  (forall x, s_name <$> (objects s1 !! x) = s_name <$> (objects s2 !! x)) ->
  result_of (getSectionByName_from l name s1)
  = result_of (getSectionByName_from l name s2).
Proof.
  induction l as [|x l IH]; intros s1 s2 H; simpl; [reflexivity|].
  unfold bind, deref. specialize (H x) as Hx.
  destruct (objects s1 !! x) as [sec1|], (objects s2 !! x) as [sec2|];
    simpl in Hx; try discriminate; [|reflexivity].
  injection Hx as Hx. rewrite Hx.
  destruct (decide (s_name sec2 = name)); [reflexivity|]. now apply IH.
Qed.

(** X6: [getSectionByName] gives the same answer before and after any
    sequence of [transaction], [undo] and [redo] calls: a section found
    under a name is found under it for as long as only the log is used. *)
Theorem getSectionByName_stable_under_log (s : Article) (calls : list LogCall)
    (name : string) :
  result_of (getSectionByName name (run_calls calls s))
  = result_of (getSectionByName name s).
Proof.
  destruct (run_calls_layout calls s) as [Hs Hn].
  unfold getSectionByName, bind, gets. rewrite Hs.
  now apply getSectionByName_from_layout.
Qed.

(** ** One operation is all-or-nothing *)

Lemma reads_only_bind {A B} (m : M A) (k : A -> M B) :
  reads_only m -> (forall a, reads_only (k a)) -> reads_only (bind m k).
Proof.
  intros Hm Hk s. unfold bind. specialize (Hm s).
  destruct (m s) as [a s0|e s0]; simpl in Hm; subst s0; [apply Hk | reflexivity].
Qed.

Lemma reads_only_deref l : reads_only (deref l).
Proof. intros s. unfold deref. destruct (objects s !! l); reflexivity. Qed.

Lemma reads_only_getSectionByName_from l name :
  reads_only (getSectionByName_from l name).
Proof.
  induction l as [|x l IH]; simpl; [intros s; reflexivity|].
  apply reads_only_bind; [apply reads_only_deref|].
  intros sec. destruct (decide (s_name sec = name)); [intros s; reflexivity | exact IH].
Qed.

Lemma reads_only_getComponentByName_from l name :
  reads_only (getComponentByName_from l name).
Proof.
  induction l as [|x l IH]; simpl; [intros s; reflexivity|].
  apply reads_only_bind; [apply reads_only_deref|].
  intros sec. destruct (findComponent _ _ _); [intros s; reflexivity | exact IH].
Qed.

Lemma reads_only_getSectionByName name : reads_only (getSectionByName name).
Proof.
  unfold getSectionByName. apply reads_only_bind; [intros s; reflexivity|].
  intros l. apply reads_only_getSectionByName_from.
Qed.

Lemma reads_only_getComponentByName name : reads_only (getComponentByName name).
Proof.
  unfold getComponentByName. apply reads_only_bind; [intros s; reflexivity|].
  intros l. apply reads_only_getComponentByName_from.
Qed.

Lemma reads_only_getJSONModel_from l : reads_only (getJSONModel_from l).
Proof.
  induction l as [|x l IH]; simpl; [intros s; reflexivity|].
  apply reads_only_bind; [apply reads_only_deref|]. intros sec.
  apply reads_only_bind; [exact IH|]. intros rest s. reflexivity.
Qed.

Lemma call_throws_early c f : throws_early (call c f).
Proof.
  intros s e s' H. unfold call in H. destruct c as [r|];
    [|injection H as _ H; now subst].
  unfold bind, deref in H.
  destruct (objects s !! owner r) as [sec|]; [|injection H as _ H; now subst].
  destruct (components sec !! position r); [discriminate|].
  injection H as _ H; now subst.
Qed.

(** A method call that returned can be followed by another call on the same
    component. *)
Lemma call_again c f g s s1 :
  call c f s = Return tt s1 -> exists s2, call c g s1 = Return tt s2.
Proof.
  unfold call. destruct c as [r|]; [|discriminate].
  unfold bind, deref.
  destruct (objects s !! owner r) as [sec|]; [|discriminate].
  destruct (components sec !! position r) as [c|] eqn:Hc; [|discriminate].
  intros H. injection H as <-. simpl. rewrite lookup_insert_eq. simpl.
  rewrite list_lookup_insert_eq by (now apply lookup_lt_Some in Hc).
  eexists. reflexivity.
Qed.

Lemma insertComponentAt_throws_early l c i :
  throws_early (Section_insertComponentAt l c i).
Proof.
  intros s e s' H. unfold Section_insertComponentAt, bind, deref in H.
  destruct (objects s !! l) as [sec|]; [|injection H as _ H; now subst].
  destruct (_ && _); [discriminate | injection H as _ H; now subst].
Qed.

Lemma removeComponent_throws_early r :
  throws_early (Section_removeComponent r).
Proof.
  intros s e s' H. unfold Section_removeComponent, bind, deref in H.
  destruct (objects s !! owner r) as [sec|]; [|injection H as _ H; now subst].
  destruct (components sec !! position r);
    [discriminate | injection H as _ H; now subst].
Qed.

(** After a lookup, which only reads, the rest of the branch runs on the
    state the lookup started from. *)
Lemma after_lookup {A B} (m : M A) (k : A -> M B) s e s' :
  reads_only m ->
  bind m k s = Throw e s' ->
  s' = s \/ exists a, m s = Return a s /\ k a s = Throw e s'.
Proof.
  intros Hm H. unfold bind in H. specialize (Hm s).
  destruct (m s) as [a s0|e0 s0]; simpl in Hm; subst s0.
  - right. exists a. split; [reflexivity | exact H].
  - left. injection H as _ H. now subst.
Qed.

Lemma edit_then_cursor_throws_early c f (after : M unit) :
  (forall s, exists s1, after s = Return tt s1) ->
  throws_early (call c f >> after).
Proof.
  intros Hafter s e s' H. unfold bind in H.
  destruct (call c f s) as [[] s1|e1 s1] eqn:Hc.
  - destruct (Hafter s1) as [s2 H2]. rewrite H2 in H. discriminate.
  - injection H as _ H. subst. exact (call_throws_early _ _ _ _ _ Hc).
Qed.

Lemma exec_throws_early operation action : throws_early (exec operation action).
Proof.
  intros s e s' H. unfold exec in H.
  destruct (spec_of operation action)
    as [n v i co|n i c co|n v f co sr|n|sn n cls i attrs|op].
  - destruct (after_lookup _ _ _ _ _ (reads_only_getComponentByName n) H)
      as [Hs|(o & _ & Hk)]; [exact Hs|].
    revert Hk. apply edit_then_cursor_throws_early.
    intros s0. destruct (truthy co); eexists; reflexivity.
  - destruct (after_lookup _ _ _ _ _ (reads_only_getComponentByName n) H)
      as [Hs|(o & _ & Hk)]; [exact Hs|].
    revert Hk. apply edit_then_cursor_throws_early.
    intros s0. destruct (truthy co); eexists; reflexivity.
  - destruct (after_lookup _ _ _ _ _ (reads_only_getComponentByName n) H)
      as [Hs|(o & _ & Hk)]; [exact Hs|].
    assert (Hcursor : forall s0, exists s1,
              match co with
              | Some offset =>
                  if negb (truthy sr) then selection_setCursor o offset
                  else selection_select o offset o (offset + default 0 sr)
              | None => ret tt
              end s0 = Return tt s1).
    { intros s0. destruct co; [destruct (negb (truthy sr))|]; eexists; reflexivity. }
    destruct v as [v|].
    + unfold bind in Hk.
      destruct (call o (setText v) s) as [[] s1|e1 s1] eqn:Hc.
      * destruct f as [f|].
        -- destruct (call_again o (setText v) (applyFormats f) s s1 Hc) as [s2 H2].
           rewrite H2 in Hk. destruct (Hcursor s2) as [s3 H3].
           rewrite H3 in Hk. discriminate.
        -- simpl in Hk. destruct (Hcursor s1) as [s3 H3].
           rewrite H3 in Hk. discriminate.
      * injection Hk as _ Hk. subst.
        exact (call_throws_early _ _ _ _ _ Hc).
    + destruct f as [f|].
      * unfold bind in Hk. simpl in Hk.
        destruct (call o (applyFormats f) s) as [[] s1|e1 s1] eqn:Hc.
        -- destruct (Hcursor s1) as [s3 H3]. rewrite H3 in Hk. discriminate.
        -- injection Hk as _ Hk. subst.
           exact (call_throws_early _ _ _ _ _ Hc).
      * unfold bind in Hk. simpl in Hk.
        destruct (Hcursor s) as [s3 H3]. rewrite H3 in Hk. discriminate.
  - destruct (after_lookup _ _ _ _ _ (reads_only_getComponentByName n) H)
      as [Hs|(o & _ & Hk)]; [exact Hs|].
    destruct o as [r|]; [|injection Hk as _ Hk; now subst].
    exact (removeComponent_throws_early r s e s' Hk).
  - destruct (after_lookup _ _ _ _ _ (reads_only_getSectionByName sn) H)
      as [Hs|(o & _ & Hk)]; [exact Hs|].
    destruct (getComponentClassByName cls); [|injection Hk as _ Hk; now subst].
    destruct o as [l|]; [|injection Hk as _ Hk; now subst].
    exact (insertComponentAt_throws_early _ _ _ s e s' Hk).
  - discriminate.
Qed.

(** X7: a single operation is all-or-nothing.  When [exec] throws, it has
    changed nothing: the document, the selection and the log are those it
    started from.  Every branch does its lookup before its first change,
    and what follows the first change cannot fail (with the component and
    Section methods as modelled from the spec). *)
Theorem exec_fails_without_effect (operation : Operation) (action : Action)
    (s s' : Article) (e : Error) :
  exec operation action s = Throw e s' -> s' = s.
Proof. apply exec_throws_early. Qed.

Lemma exec_fails_without_effect_witness :
  exec delete_ghost Do sample_typed = Throw TypeError sample_typed /\
  sample_typed = sample_typed.
Proof.
  assert (H : exec delete_ghost Do sample_typed = Throw TypeError sample_typed)
    by (vm_compute; reflexivity).
  split; [exact H|].
  exact (exec_fails_without_effect delete_ghost Do sample_typed sample_typed
           TypeError H).
Defined.

Lemma execAll_failure action ops : forall s e s',
  execAll action ops s = Throw e s' ->
  exists before failing after,
    ops = before ++ failing :: after /\
    execAll action before s = Return tt s' /\
    exec failing action s' = Throw e s'.
Proof.
  induction ops as [|o ops IH]; intros s e s' H; simpl in H; [discriminate|].
  unfold bind in H. destruct (exec o action s) as [[] s1|e1 s1] eqn:Ho.
  - destruct (IH s1 e s' H) as (before & failing & after & Hops & Hb & Hf).
    exists (o :: before), failing, after. split; [now rewrite Hops|].
    split; [|exact Hf]. simpl. unfold bind. now rewrite Ho.
  - injection H as -> ->.
    pose proof (exec_throws_early o action s e s' Ho) as ->.
    exists [], o, ops. repeat split; assumption.
Qed.

(** X8: how a transaction fails.  In a log whose cursor is a position of
    the history (0 <= historyAt <= history.length): when [transaction]
    throws, the state it leaves is exactly the state after the operations
    that precede the failing one: those operations were executed in order
    on the article with the transaction appended and the cursor advanced,
    the failing operation threw without changing anything, and the
    operations after it were never executed.  The same holds of [undo],
    when historyAt > 0 and [history[historyAt - 1]] is the transaction,
    with the 'undo' specs in reverse order. *)
Theorem transaction_failure_point (s s' : Article) (ops : list Operation)
    (e : Error) :
  log_ok s ->
  (transaction ops s = Throw e s' ->
   exists before failing after,
     ops = before ++ failing :: after /\
     execAll Do before (submitted ops s) = Return tt s' /\
     exec failing Do s' = Throw e s') /\
  (0 < historyAt s ->
   at_index (history s) (historyAt s - 1) = Some ops ->
   undo s = Throw e s' ->
   exists before failing after,
     ops = before ++ failing :: after /\
     execAll Undo (rev after) (set_historyAt (historyAt s - 1) s) = Return tt s' /\
     exec failing Undo s' = Throw e s').
Proof.
  intros Hok. split.
  - intros H. rewrite transaction_eq in H by exact Hok.
    now apply execAll_failure.
  - intros Hpos Hat H. rewrite (undo_eq s ops Hpos Hat) in H.
    destruct (execAll_failure _ _ _ _ _ H)
      as (before & failing & after & Hops & Hb & Hf).
    exists (rev after), failing, (rev before).
    split; [|split; [now rewrite rev_involutive | exact Hf]].
    rewrite <- (rev_involutive ops), Hops, rev_app_distr. simpl.
    now rewrite <- app_assoc.
Qed.

Lemma transaction_failure_point_witness :
  log_ok sample_article /\
  (exists s',
     transaction [type_Hi; delete_ghost] sample_article = Throw TypeError s' /\
     exists before failing after,
       [type_Hi; delete_ghost] = before ++ failing :: after /\
       execAll Do before (submitted [type_Hi; delete_ghost] sample_article)
       = Return tt s' /\
       exec failing Do s' = Throw TypeError s') /\
  log_ok sample_half /\
  0 < historyAt sample_half /\
  at_index (history sample_half) (historyAt sample_half - 1)
  = Some [undo_ghost; type_Hi] /\
  text_of "c1" sample_half = Some "Hi"%string /\
  (exists s',
     undo sample_half = Throw TypeError s' /\
     text_of "c1" s' = Some ""%string /\
     exists before failing after,
       [undo_ghost; type_Hi] = before ++ failing :: after /\
       execAll Undo (rev after)
         (set_historyAt (historyAt sample_half - 1) sample_half)
       = Return tt s' /\
       exec failing Undo s' = Throw TypeError s').
Proof.
  assert (Hok : log_ok sample_article) by (unfold log_ok; simpl; lia).
  assert (Hok' : log_ok sample_half) by (vm_compute; split; discriminate).
  assert (Hpos : 0 < historyAt sample_half) by (vm_compute; reflexivity).
  assert (Hat : at_index (history sample_half) (historyAt sample_half - 1)
                = Some [undo_ghost; type_Hi]) by (vm_compute; reflexivity).
  split; [exact Hok|]. split.
  - eexists. split; [vm_compute; reflexivity|].
    apply (proj1 (transaction_failure_point sample_article _
                    [type_Hi; delete_ghost] TypeError Hok)).
    vm_compute. reflexivity.
  - split; [exact Hok'|]. split; [exact Hpos|]. split; [exact Hat|].
    split; [vm_compute; reflexivity|].
    eexists. split; [vm_compute; reflexivity|].
    split; [vm_compute; reflexivity|].
    apply (proj2 (transaction_failure_point sample_half _
                    [undo_ghost; type_Hi] TypeError Hok') Hpos Hat).
    vm_compute. reflexivity.
Defined.

(** ** How the entry points of the log compose *)

Lemma doc_eq_submitted ops1 ops2 s1 s2 :
  doc_eq s1 s2 -> doc_eq (submitted ops1 s1) (submitted ops2 s2).
Proof. intros [Ho Hs]. split; assumption. Qed.

(** X9: one transaction or two.  Submitting the operations of two
    transactions as one transaction gives the same result (return, or the
    same exception) and the same document as submitting the two
    transactions one after the other; when both return, the single
    transaction takes one entry of the history and the two take two. *)
Theorem transaction_of_concatenation (s : Article) (ops1 ops2 : list Operation) :
  log_ok s ->
  agree (transaction (ops1 ++ ops2) s)
        ((transaction ops1 >> transaction ops2) s) /\
  (forall s12 s2,
     transaction (ops1 ++ ops2) s = Return tt s12 ->
     (transaction ops1 >> transaction ops2) s = Return tt s2 ->
     historyAt s12 = historyAt s + 1 /\ historyAt s2 = historyAt s + 2).
Proof.
  intros Hok.
  assert (Hag : agree (transaction (ops1 ++ ops2) s)
                      ((transaction ops1 >> transaction ops2) s)).
  { rewrite transaction_eq by exact Hok. rewrite execAll_app.
    unfold bind. rewrite (transaction_eq s ops1 Hok).
    pose proof (doc_only_execAll Do ops1 _ _
                  (doc_eq_submitted (ops1 ++ ops2) ops1 s s (doc_eq_refl s)))
      as H1.
    destruct (transaction_log ops1 s Hok) as [Hh Hat].
    rewrite (transaction_eq s ops1 Hok) in Hh, Hat.
    destruct (execAll Do ops1 (submitted (ops1 ++ ops2) s)) as [[] a|e a],
             (execAll Do ops1 (submitted ops1 s)) as [[] b|e' b];
      simpl in H1; try contradiction; [|exact H1].
    destruct H1 as [_ Hd]. simpl in Hh, Hat.
    assert (Hokb : log_ok b).
    { unfold log_ok. rewrite Hh, Hat, length_app, length_take.
      destruct Hok. simpl. lia. }
    rewrite (transaction_eq b ops2 Hokb).
    apply doc_only_execAll. destruct Hd as [Ho Hs]. split; assumption. }
  split; [exact Hag|].
  intros s12 s2 H12 H2.
  destruct (transaction_log (ops1 ++ ops2) s Hok) as [_ Hat12].
  rewrite H12 in Hat12. simpl in Hat12. split; [exact Hat12|].
  unfold bind in H2.
  destruct (transaction_log ops1 s Hok) as [Hh1 Hat1].
  destruct (transaction ops1 s) as [[] b|e b]; [|discriminate].
  simpl in Hh1, Hat1.
  assert (Hokb : log_ok b).
  { unfold log_ok. rewrite Hh1, Hat1, length_app, length_take.
    destruct Hok. simpl. lia. }
  destruct (transaction_log ops2 b Hokb) as [_ Hat2].
  rewrite H2 in Hat2. simpl in Hat2. lia.
Qed.

Lemma transaction_of_concatenation_witness :
  log_ok sample_article /\
  agree (transaction ([insert_c2] ++ [type_into_c2]) sample_article)
        ((transaction [insert_c2] >> transaction [type_into_c2]) sample_article).
Proof.
  assert (Hok : log_ok sample_article) by (unfold log_ok; simpl; lia).
  split; [exact Hok|].
  exact (proj1 (transaction_of_concatenation sample_article
                  [insert_c2] [type_into_c2] Hok)).
Defined.

(** X10: an empty transaction is recorded like any other.  In a log whose
    cursor is a position of the history (0 <= historyAt <= history.length),
    it returns and leaves the document and the selection untouched, but it
    takes an entry of the history, advances the cursor and discards the
    transactions that could have been redone; undoing it only moves the
    cursor back, and the discarded transactions stay lost. *)
Theorem empty_transaction_is_recorded (s : Article) :
  log_ok s ->
  transaction [] s = Return tt (submitted [] s) /\
  history (submitted [] s) = take (Z.to_nat (historyAt s)) (history s) ++ [[]] /\
  undo (submitted [] s)
  = Return tt (set_historyAt (historyAt s) (submitted [] s)).
Proof.
  intros Hok. split; [now rewrite transaction_eq|]. split; [reflexivity|].
  destruct Hok as [H0 H1].
  rewrite (undo_eq (submitted [] s) []).
  - simpl. unfold ret. f_equal. unfold set_historyAt. simpl. f_equal. lia.
  - simpl. lia.
  - simpl. replace (historyAt s + 1 - 1) with (Z.of_nat (Z.to_nat (historyAt s)))
      by lia.
    rewrite at_index_nat. apply list_lookup_middle.
    rewrite length_take. lia.
Qed.

Lemma empty_transaction_is_recorded_witness :
  log_ok sample_undone /\
  history sample_undone = [[type_Hi]] /\
  transaction [] sample_undone = Return tt (submitted [] sample_undone) /\
  history (submitted [] sample_undone) = [[]].
Proof.
  assert (Hok : log_ok sample_undone) by (vm_compute; split; discriminate).
  split; [exact Hok|]. split; [vm_compute; reflexivity|].
  split; [exact (proj1 (empty_transaction_is_recorded sample_undone Hok))|].
  vm_compute. reflexivity.
Defined.

(** X11: [do] has no guard of its own.  Called when the cursor is at the end
    of the history, it throws a TypeError on the missing transaction after
    having incremented the cursor, which is then one beyond the history;
    [redo] in that state does nothing, and [undo] throws a TypeError in
    turn and puts the cursor back at the end of the history. *)
Theorem do_past_the_end (s : Article) :
  historyAt s = Z.of_nat (length (history s)) ->
  do s = Throw TypeError (set_historyAt (historyAt s + 1) s) /\
  redo (set_historyAt (historyAt s + 1) s)
  = Return tt (set_historyAt (historyAt s + 1) s) /\
  undo (set_historyAt (historyAt s + 1) s) = Throw TypeError s.
Proof.
  intros Hend.
  assert (Hnone : at_index (history s) (historyAt s) = None).
  { rewrite Hend, at_index_nat. apply lookup_ge_None. lia. }
  split; [now apply do_undefined|]. split.
  - apply redo_at_end. simpl. lia.
  - unfold undo, bind, gets, modify, id. simpl.
    destruct (Z.ltb_spec 0 (historyAt s + 1)); [|lia].
    simpl. replace (historyAt s + 1 - 1) with (historyAt s) by lia.
    rewrite Hnone. unfold throw. f_equal. destruct s; reflexivity.
Qed.

Lemma do_past_the_end_witness :
  historyAt sample_typed = Z.of_nat (length (history sample_typed)) /\
  do sample_typed = Throw TypeError (set_historyAt 2 sample_typed) /\
  undo (set_historyAt 2 sample_typed) = Throw TypeError sample_typed.
Proof.
  assert (H : historyAt sample_typed = Z.of_nat (length (history sample_typed)))
    by (vm_compute; reflexivity).
  destruct (do_past_the_end sample_typed H) as (Hd & _ & Hu).
  split; [exact H|]. split; [exact Hd | exact Hu].
Defined.

(** X12: the cursor makes the round trip even when the document does not.
    In a log whose cursor is a position of the history
    (0 <= historyAt <= history.length), whatever the operations do and
    whether they throw, [undo] followed by [redo] brings the cursor back to
    where it was when there was something to undo (historyAt > 0), and so
    does [redo] followed by [undo] when there was something to redo
    (historyAt < history.length); the history is the same list
    throughout. *)
Theorem cursor_round_trip (s : Article) :
  log_ok s ->
  (0 < historyAt s ->
   historyAt (state_of (redo (state_of (undo s)))) = historyAt s /\
   history (state_of (redo (state_of (undo s)))) = history s) /\
  (historyAt s < Z.of_nat (length (history s)) ->
   historyAt (state_of (undo (state_of (redo s)))) = historyAt s /\
   history (state_of (undo (state_of (redo s)))) = history s).
Proof.
  intros Hok. destruct (undo_log s Hok) as [Hhu Hatu].
  destruct (redo_log s Hok) as [Hhr Hatr]. destruct Hok as [H0 H1].
  split; intros H.
  - assert (Hok' : log_ok (state_of (undo s)))
      by (unfold log_ok; rewrite Hhu, Hatu; lia).
    destruct (redo_log _ Hok') as [Hh Hat].
    rewrite Hh, Hat, Hhu, Hatu. split; [lia | reflexivity].
  - assert (Hok' : log_ok (state_of (redo s)))
      by (unfold log_ok; rewrite Hhr, Hatr; lia).
    destruct (undo_log _ Hok') as [Hh Hat].
    rewrite Hh, Hat, Hhr, Hatr. split; [lia | reflexivity].
Qed.

Lemma cursor_round_trip_witness :
  (log_ok sample_half /\ 0 < historyAt sample_half /\
   result_of (undo sample_half) = inl TypeError /\
   historyAt (state_of (redo (state_of (undo sample_half))))
   = historyAt sample_half) /\
  (log_ok sample_built_undone /\
   historyAt sample_built_undone
   < Z.of_nat (length (history sample_built_undone)) /\
   historyAt (state_of (undo (state_of (redo sample_built_undone))))
   = historyAt sample_built_undone).
Proof.
  assert (Hok : log_ok sample_half) by (vm_compute; split; discriminate).
  assert (Hpos : 0 < historyAt sample_half) by (vm_compute; reflexivity).
  assert (Hok' : log_ok sample_built_undone)
    by (vm_compute; split; discriminate).
  assert (Hlt : historyAt sample_built_undone
                < Z.of_nat (length (history sample_built_undone)))
    by (vm_compute; reflexivity).
  split.
  - split; [exact Hok|]. split; [exact Hpos|].
    split; [vm_compute; reflexivity|].
    exact (proj1 (proj1 (cursor_round_trip sample_half Hok) Hpos)).
  - split; [exact Hok'|]. split; [exact Hlt|].
    exact (proj1 (proj2 (cursor_round_trip sample_built_undone Hok') Hlt)).
Defined.

(** ** What the lookups and the JSON model return *)

Lemma findComponent_spec cs name : forall j,
  match findComponent cs name j with
  | None => Forall (fun c => c_name c <> Some name) cs
  | Some k =>
      exists before c after,
        cs = before ++ c :: after /\ k = (j + length before)%nat /\
        c_name c = Some name /\
        Forall (fun c => c_name c <> Some name) before
  end.
Proof.
  induction cs as [|c cs IH]; intros j; simpl; [constructor|].
  destruct (decide (c_name c = Some name)) as [Hc|Hc].
  - exists [], c, cs. repeat split; [simpl; lia | exact Hc | constructor].
  - specialize (IH (S j)). destruct (findComponent cs name (S j)) as [k|].
    + destruct IH as (before & c' & after & Hcs & Hk & Hn & Hb).
      exists (c :: before), c', after. rewrite Hcs.
      repeat split; [simpl; lia | exact Hn | now constructor].
    + now constructor.
Qed.

Lemma getComponentByName_from_spec s name l :
  Forall (fun x => is_Some (objects s !! x)) l ->
  exists o,
    getComponentByName_from l name s = Return o s /\
    match o with
    | None =>
        Forall (fun c => c_name c <> Some name)
          (flat_map (fun x => match objects s !! x with
                              | Some sec => components sec
                              | None => []
                              end) l)
    | Some r =>
        exists earlier later sec before c after,
          l = earlier ++ owner r :: later /\
          Forall (fun c => c_name c <> Some name)
            (flat_map (fun x => match objects s !! x with
                                | Some sec => components sec
                                | None => []
                                end) earlier) /\
          objects s !! owner r = Some sec /\
          components sec = before ++ c :: after /\
          position r = length before /\
          c_name c = Some name /\
          Forall (fun c => c_name c <> Some name) before
    end.
Proof.
  induction l as [|x l IH]; intros Hv; simpl.
  - exists None. split; [reflexivity | constructor].
  - apply Forall_cons in Hv as [[sec Hsec] Hv].
    unfold bind, deref. rewrite Hsec.
    pose proof (findComponent_spec (components sec) name 0) as Hf.
    destruct (findComponent (components sec) name 0) as [k|].
    + destruct Hf as (before & c & after & Hcs & Hk & Hn & Hb).
      exists (Some (mkRef x k)). split; [reflexivity|].
      exists [], l, sec, before, c, after. simpl.
      repeat split; try assumption. constructor.
    + destruct (IH Hv) as (o & Hrun & Ho). exists o. split; [exact Hrun|].
      destruct o as [r|].
      * destruct Ho as (earlier & later & sec' & before & c & after
                        & Hl & He & Hs' & Hcs & Hp & Hn & Hb).
        exists (x :: earlier), later, sec', before, c, after.
        rewrite Hl. simpl. rewrite Hsec.
        repeat split; try assumption. apply Forall_app. split; assumption.
      * apply Forall_app. split; assumption.
Qed.

(** X13: what [getComponentByName] returns.  It never changes the state.
    It returns undefined exactly when no component of any section of the
    article has the name; otherwise it returns the first component with the
    name, in the order of the sections and, within a section, of its
    components: no component of an earlier section and no earlier component
    of the same section has the name. *)
Theorem getComponentByName_first_match (s : Article) (name : string) :
  valid_refs s ->
  exists o,
    getComponentByName name s = Return o s /\
    match o with
    | None => no_component_named name s
    | Some r =>
        exists earlier later sec before c after,
          sections s = earlier ++ owner r :: later /\
          Forall (fun c => c_name c <> Some name)
            (flat_map (fun x => match objects s !! x with
                                | Some sec => components sec
                                | None => []
                                end) earlier) /\
          objects s !! owner r = Some sec /\
          components sec = before ++ c :: after /\
          position r = length before /\
          c_name c = Some name /\
          Forall (fun c => c_name c <> Some name) before
    end.
Proof.
  intros Hv. unfold getComponentByName, bind, gets.
  exact (getComponentByName_from_spec s name (sections s) Hv).
Qed.

Lemma getComponentByName_first_match_witness :
  valid_refs sample_two_sections /\
  exists o, getComponentByName "c1" sample_two_sections
            = Return o sample_two_sections /\
            o = Some (mkRef 1 0).
Proof.
  assert (Hv : valid_refs sample_two_sections)
    by (repeat constructor; eexists; vm_compute; reflexivity).
  split; [exact Hv|].
  destruct (getComponentByName_first_match sample_two_sections "c1" Hv)
    as (o & Hrun & _).
  exists o. split; [exact Hrun|].
  assert (E : getComponentByName "c1" sample_two_sections
              = Return (Some (mkRef 1 0)) sample_two_sections)
    by (vm_compute; reflexivity).
  rewrite E in Hrun. now injection Hrun as <-.
Defined.

Lemma getSectionByName_from_spec s name l :
  Forall (fun x => is_Some (objects s !! x)) l ->
  exists o,
    getSectionByName_from l name s = Return o s /\
    match o with
    | None =>
        Forall (fun x => match objects s !! x with
                         | Some sec => s_name sec <> name
                         | None => True
                         end) l
    | Some x =>
        exists earlier later sec,
          l = earlier ++ x :: later /\
          Forall (fun y => match objects s !! y with
                           | Some sec => s_name sec <> name
                           | None => True
                           end) earlier /\
          objects s !! x = Some sec /\ s_name sec = name
    end.
Proof.
  induction l as [|x l IH]; intros Hv; simpl.
  - exists None. split; [reflexivity | constructor].
  - apply Forall_cons in Hv as [[sec Hsec] Hv].
    unfold bind, deref. rewrite Hsec.
    destruct (decide (s_name sec = name)) as [Hn|Hn].
    + exists (Some x). split; [reflexivity|].
      exists [], l, sec. repeat split; try assumption. constructor.
    + destruct (IH Hv) as (o & Hrun & Ho). exists o. split; [exact Hrun|].
      destruct o as [y|].
      * destruct Ho as (earlier & later & sec' & Hl & He & Hs' & Hn').
        exists (x :: earlier), later, sec'. rewrite Hl.
        repeat split; try assumption.
        constructor; [now rewrite Hsec | exact He].
      * constructor; [now rewrite Hsec | exact Ho].
Qed.

(** X14: what [getSectionByName] returns.  It never changes the state.  It
    returns undefined exactly when no section of the article has the name;
    otherwise it returns the first section of the article with the name,
    so that of two sections with the same name the later one is never
    found. *)
Theorem getSectionByName_first_match (s : Article) (name : string) :
  valid_refs s ->
  exists o,
    getSectionByName name s = Return o s /\
    match o with
    | None => no_section_named name s
    | Some x =>
        exists earlier later sec,
          sections s = earlier ++ x :: later /\
          Forall (fun y => match objects s !! y with
                           | Some sec => s_name sec <> name
                           | None => True
                           end) earlier /\
          objects s !! x = Some sec /\ s_name sec = name
    end.
Proof.
  intros Hv. unfold getSectionByName, bind, gets.
  exact (getSectionByName_from_spec s name (sections s) Hv).
Qed.

Lemma getSectionByName_first_match_witness :
  valid_refs sample_two_sections /\
  exists o, getSectionByName "s2" sample_two_sections
            = Return o sample_two_sections /\
            o = Some 2%nat.
Proof.
  assert (Hv : valid_refs sample_two_sections)
    by (repeat constructor; eexists; vm_compute; reflexivity).
  split; [exact Hv|].
  destruct (getSectionByName_first_match sample_two_sections "s2" Hv)
    as (o & Hrun & _).
  exists o. split; [exact Hrun|].
  assert (E : getSectionByName "s2" sample_two_sections
              = Return (Some 2%nat) sample_two_sections)
    by (vm_compute; reflexivity).
  rewrite E in Hrun. now injection Hrun as <-.
Defined.

Lemma getJSONModel_from_spec s l :
  Forall (fun x => is_Some (objects s !! x)) l ->
  exists model,
    getJSONModel_from l s = Return model s /\
    Forall2 (fun x sec => objects s !! x = Some sec) l model.
Proof.
  induction l as [|x l IH]; intros Hv; simpl.
  - exists []. split; [reflexivity | constructor].
  - apply Forall_cons in Hv as [[sec Hsec] Hv].
    destruct (IH Hv) as (rest & Hrun & Hrest).
    exists (sec :: rest). unfold bind, deref. rewrite Hsec, Hrun.
    split; [reflexivity | now constructor].
Qed.

(** X15: [getJSONModel] returns one entry for each section of the article,
    in the order of the sections, each holding the name and the components
    of that Section object; a section that the article holds twice is
    listed twice.  The call changes nothing, and its result is the same
    for two states with the same document, whatever their log and
    selection. *)
Theorem getJSONModel_lists_sections (s : Article) :
  valid_refs s ->
  (exists model,
     getJSONModel s = Return model s /\
     Forall2 (fun x sec => objects s !! x = Some sec) (sections s) model) /\
  (forall s', doc_eq s s' ->
     result_of (getJSONModel s') = result_of (getJSONModel s)).
Proof.
  intros Hv. split.
  - unfold getJSONModel, bind, gets.
    exact (getJSONModel_from_spec s (sections s) Hv).
  - intros s' Hd. pose proof (doc_only_getJSONModel s s' Hd) as Hag.
    destruct (getJSONModel s) as [a x|e x], (getJSONModel s') as [b y|e' y];
      simpl in *; try contradiction; destruct Hag as [-> _]; reflexivity.
Qed.

Lemma getJSONModel_lists_sections_witness :
  valid_refs sample_aliased /\
  getJSONModel sample_aliased
  = Return [sample_section; mkSection "s2" [new_Paragraph]; sample_section]
      sample_aliased.
Proof.
  assert (Hv : valid_refs sample_aliased)
    by (repeat constructor; eexists; vm_compute; reflexivity).
  split; [exact Hv|].
  destruct (proj1 (getJSONModel_lists_sections sample_aliased Hv))
    as (model & Hrun & _).
  rewrite Hrun. f_equal.
  assert (E : getJSONModel sample_aliased
              = Return [sample_section; mkSection "s2" [new_Paragraph];
                        sample_section] sample_aliased)
    by (vm_compute; reflexivity).
  rewrite E in Hrun. now injection Hrun as <-.
Defined.

(** ** Edge cases of the executor *)



(** X17: the executor reads nothing but the document.  Two states with the
    same Section objects and the same sequence of sections give, for the
    same operation or list of operations, the same result (return, or the
    same exception) and the same document afterwards, whatever their
    selection, history and cursor are. *)
Theorem exec_reads_only_the_document (s1 s2 : Article) :
  doc_eq s1 s2 ->
  (forall operation action,
     agree (exec operation action s1) (exec operation action s2)) /\
  (forall action ops, agree (execAll action ops s1) (execAll action ops s2)).
Proof.
  intros Hd. split.
  - intros operation action. now apply doc_only_exec.
  - intros action ops. now apply doc_only_execAll.
Qed.

Lemma exec_reads_only_the_document_witness :
  doc_eq sample_undone sample_article /\
  agree (exec type_Hi Do sample_undone) (exec type_Hi Do sample_article).
Proof.
  assert (Hd : doc_eq sample_undone sample_article)
    by (split; vm_compute; reflexivity).
  split; [exact Hd|].
  exact (proj1 (exec_reads_only_the_document _ _ Hd) type_Hi Do).
Defined.

Lemma getComponentClassByName_unknown cls :
  cls ∉ known_classes -> getComponentClassByName cls = None.
Proof.
  intros H. unfold known_classes in H.
  apply not_elem_of_cons in H as [H1 H].
  apply not_elem_of_cons in H as [H2 H].
  apply not_elem_of_cons in H as [H3 H].
  apply not_elem_of_cons in H as [H4 _].
  unfold getComponentClassByName.
  repeat (destruct (decide _); [contradiction|]). reflexivity.
Qed.

(** X18: an insertComponent whose componentClass is none of 'Paragraph',
    'Figure', 'YouTubeComponent' and 'GiphyComponent' (the names are
    compared as they are written) throws a TypeError, whether or not the
    section exists, and changes nothing: the switch of
    [getComponentClassByName] has no default, and [new] is applied to
    undefined. *)
Theorem insertComponent_unknown_class (s : Article) (u : ActionSpec)
    (sn n cls : string) (i : Z) (attrs : option (gmap string string)) :
  valid_refs s ->
  cls ∉ known_classes ->
  getComponentClassByName cls = None /\
  exec (mkOperation (InsertComponent sn n cls i attrs) u) Do s
  = Throw TypeError s.
Proof.
  intros Hv Hcls.
  pose proof (getComponentClassByName_unknown cls Hcls) as Hnone.
  split; [exact Hnone|].
  destruct (getSectionByName_from_spec s sn (sections s) Hv) as (o & Hrun & _).
  unfold exec, bind. simpl.
  unfold getSectionByName, bind, gets. rewrite Hrun, Hnone. reflexivity.
Qed.

Lemma insertComponent_unknown_class_witness :
  valid_refs sample_article /\
  ("paragraph"%string ∉ known_classes) /\
  exec (mkOperation (InsertComponent "s1" "c9" "paragraph" 0 None) (OtherOp "noop"))
    Do sample_article
  = Throw TypeError sample_article.
Proof.
  assert (Hv : valid_refs sample_article)
    by (repeat constructor; eexists; vm_compute; reflexivity).
  assert (Hc : "paragraph"%string ∉ known_classes).
  { unfold known_classes. intros H.
    repeat (apply elem_of_cons in H as [H|H]; [discriminate|]).
    now apply not_elem_of_nil in H. }
  split; [exact Hv|]. split; [exact Hc|].
  exact (proj2 (insertComponent_unknown_class sample_article (OtherOp "noop")
                  "s1" "c9" "paragraph" 0 None Hv Hc)).
Defined.

(** [removeComponent] of the article never removes anything.  It looks the
    component up among the sections and then splices [this.components], a
    property that an article does not have: for every article and every
    argument the call throws a TypeError and leaves the article exactly as
    it was. *)
Remark removeComponent_always_throws (s : Article) (component : ObjectRef) :
  removeComponent component s = Throw TypeError s.
Proof. reflexivity. Qed.

(** ** Inserting a component and deleting it again *)

Lemma components_after_insert (m : gmap nat SectionObj) l o xs :
  l ∉ xs ->
  flat_map (fun x => match <[l := o]> m !! x with
                     | Some sec => components sec
                     | None => []
                     end) xs
  = flat_map (fun x => match m !! x with
                       | Some sec => components sec
                       | None => []
                       end) xs.
Proof.
  induction xs as [|x xs IH]; intros H; simpl; [reflexivity|].
  apply not_elem_of_cons in H as [Hne H].
  rewrite lookup_insert_ne by exact Hne. now rewrite IH.
Qed.

Lemma new_Component_name k n attrs :
  default ∅ attrs !! "name"%string = None ->
  c_name (new_Component k (extend {[ "name"%string := n ]} (default ∅ attrs)))
  = Some n.
Proof.
  intros H. simpl. unfold extend.
  rewrite lookup_union_r by exact H. apply lookup_singleton_eq.
Qed.

(** X19: an insertComponent and the deleteComponent of the same name undo
    each other.  When the section exists, the index is within the section,
    the class is known, no component of the document has the name yet and
    the attrs carry no name of their own, then [exec] of the insertComponent
    returns, [getComponentByName] finds the new component at that index of
    that section, and [exec] of the deleteComponent returns the state that
    the insertion started from (with Section.insertComponentAt,
    Section.removeComponent and the constructors as modelled from the
    spec). *)
Theorem insertComponent_then_deleteComponent (s : Article) (u1 u2 : ActionSpec)
    (sn n cls : string) (k : ComponentClass) (i : Z)
    (attrs : option (gmap string string)) (l : nat) (sec : SectionObj) :
  valid_refs s ->
  getSectionByName sn s = Return (Some l) s ->
  objects s !! l = Some sec ->
  0 <= i <= Z.of_nat (length (components sec)) ->
  getComponentClassByName cls = Some k ->
  no_component_named n s ->
  default ∅ attrs !! "name"%string = None ->
  exists s1,
    exec (mkOperation (InsertComponent sn n cls i attrs) u1) Do s = Return tt s1 /\
    getComponentByName n s1 = Return (Some (mkRef l (Z.to_nat i))) s1 /\
    exec (mkOperation (DeleteComponent n) u2) Do s1 = Return tt s.
Proof.
  intros Hv Hget Hsec Hi Hcls Hfresh Hattrs.
  set (c := new_Component k (extend {[ "name"%string := n ]} (default ∅ attrs))).
  set (cs := components sec).
  set (sec1 := mkSection (s_name sec)
                 (take (Z.to_nat i) cs ++ c :: drop (Z.to_nat i) cs)).
  set (s1 := set_objects (<[l := sec1]> (objects s)) s).
  assert (Hins : exec (mkOperation (InsertComponent sn n cls i attrs) u1) Do s
                 = Return tt s1).
  { unfold exec, bind. simpl. rewrite Hget, Hcls.
    unfold Section_insertComponentAt, bind, deref. rewrite Hsec.
    destruct (Z.leb_spec 0 i); [|lia].
    destruct (Z.leb_spec i (Z.of_nat (length (components sec)))); [|lia].
    reflexivity. }
  (* the section is among the sections of the article *)
  assert (Hin : l ∈ sections s).
  { destruct (getSectionByName_from_spec s sn (sections s) Hv) as (o & Hrun & Ho).
    unfold getSectionByName, bind, gets in Hget. rewrite Hrun in Hget.
    injection Hget as ->.
    destruct Ho as (earlier & later & sec' & Hl & _). rewrite Hl.
    apply elem_of_app. right. now left. }
  destruct (list_elem_of_split_l _ _ Hin) as (earlier & later & Hs & Hfirst).
  unfold no_component_named, all_components in Hfresh.
  rewrite Hs, flat_map_app in Hfresh. simpl in Hfresh. rewrite Hsec in Hfresh.
  apply Forall_app in Hfresh as [Hearlier Hrest].
  apply Forall_app in Hrest as [Hcs _].
  unfold valid_refs in Hv. rewrite Hs in Hv.
  apply Forall_app in Hv as [Hvearlier _].
  assert (Hname : c_name c = Some n) by (now apply new_Component_name).
  assert (Hlen : length (take (Z.to_nat i) cs) = Z.to_nat i).
  { rewrite length_take. unfold cs. lia. }
  assert (Hfind : getComponentByName n s1
                  = Return (Some (mkRef l (Z.to_nat i))) s1).
  { rewrite <- Hlen.
    refine (proj1 (getComponentByName_first s1 n earlier l later sec1
                     (take (Z.to_nat i) cs) c (drop (Z.to_nat i) cs)
                     Hs _ _ _ eq_refl _ Hname)).
    - simpl. eapply Forall_impl; [exact Hvearlier|]. intros x [o Ho]. simpl.
      destruct (decide (l = x)) as [<-|Hne];
        [rewrite lookup_insert_eq | rewrite lookup_insert_ne by exact Hne]; eauto.
    - simpl. rewrite components_after_insert by exact Hfirst. exact Hearlier.
    - simpl. apply lookup_insert_eq.
    - apply Forall_take. exact Hcs. }
  assert (Hlook : components sec1 !! Z.to_nat i = Some c)
    by (simpl; apply list_lookup_middle; now rewrite Hlen).
  assert (Hdelete : delete (Z.to_nat i) (components sec1) = components sec).
  { pose proof (delete_middle (take (Z.to_nat i) cs) (drop (Z.to_nat i) cs) c)
      as D.
    rewrite Hlen, take_drop in D. exact D. }
  assert (Hdel : Section_removeComponent (mkRef l (Z.to_nat i)) s1 = Return tt s).
  { unfold Section_removeComponent, bind, deref. simpl.
    rewrite lookup_insert_eq, Hlook, Hdelete.
    unfold store, modify, s1, set_objects. simpl.
    rewrite insert_insert_eq.
    replace (mkSection (s_name sec) (components sec)) with sec
      by (now destruct sec).
    rewrite insert_id by exact Hsec. now destruct s. }
  exists s1. split; [exact Hins|]. split; [exact Hfind|].
  unfold exec, bind. simpl. rewrite Hfind. exact Hdel.
Qed.

Lemma insertComponent_then_deleteComponent_witness :
  exists s1,
    exec insert_c2 Do sample_article = Return tt s1 /\
    getComponentByName "c2" s1 = Return (Some (mkRef 1 0)) s1 /\
    exec (mkOperation (DeleteComponent "c2") (OtherOp "noop")) Do s1
    = Return tt sample_article.
Proof.
  assert (Hv : valid_refs sample_article)
    by (repeat constructor; eexists; vm_compute; reflexivity).
  assert (Hget : getSectionByName "s1" sample_article
                 = Return (Some 1%nat) sample_article)
    by (vm_compute; reflexivity).
  assert (Hsec : objects sample_article !! 1%nat = Some sample_section)
    by (vm_compute; reflexivity).
  assert (Hi : 0 <= 0 <= Z.of_nat (length (components sample_section)))
    by (simpl; lia).
  assert (Hfresh : no_component_named "c2" sample_article)
    by (repeat constructor; discriminate).
  exact (insertComponent_then_deleteComponent sample_article
           (DeleteComponent "c2") (OtherOp "noop") "s1" "c2" "Paragraph"
           Paragraph 0 None 1%nat sample_section
           Hv Hget Hsec Hi eq_refl Hfresh eq_refl).
Defined.

